(** * CommunicationAppUI: a shallow embedding of the chat client's services

  The development follows the objects of the client:

  - [Storage]       the browser's [localStorage] and [window.location];
  - [authService]   the session store (register, login, logout);
  - [api]           the axios instance and its two interceptors;
  - [ChatService]   the SignalR connection manager;
  - [Chat]          the handlers of the chat page;
  - [MessageInput]  the message composer;
  - [Login]         login, register and the login page.

  JavaScript values are modelled as the code uses them: storage as a
  finite map from keys to strings, arrays as lists, [null] as [None],
  numbers that only ever hold integers as [Z], rejected promises and
  thrown errors as an explicit completion. A listener is code that runs
  when the service calls it: it may throw, and it may subscribe and
  unsubscribe listeners. An [async] method that nobody awaits runs to
  its first [await] and goes on, as a pending task, when the promise it
  waits for has settled. *)

From Stdlib Require Import ZArith NArith Ascii.
From stdpp Require Import base gmap strings list fin_maps pretty.

Open Scope string_scope.
Open Scope list_scope.
Open Scope Z_scope.

(* ===================================================================== *)
(** ** Browser storage *)
(* ===================================================================== *)

Module Storage.

(** The part of the browser a service can touch: [localStorage] (a
    string-to-string store) and [window.location.href]. *)
Record Browser := mkBrowser {
  localStorage : gmap string string;
  location_href : string
}.

(** [localStorage.getItem(key)]: the stored string, or [null]. *)
Definition getItem (key : string) (b : Browser) : option string :=
  localStorage b !! key.

(** [localStorage.setItem(key, value)]. *)
Definition setItem (key value : string) (b : Browser) : Browser :=
  mkBrowser (<[key := value]> (localStorage b)) (location_href b).

(** [localStorage.removeItem(key)]. *)
Definition removeItem (key : string) (b : Browser) : Browser :=
  mkBrowser (delete key (localStorage b)) (location_href b).

(** [window.location.href = url]. *)
Definition navigate (url : string) (b : Browser) : Browser :=
  mkBrowser (localStorage b) url.

(** JavaScript truthiness of a value that is a string or [null]:
    [null] and the empty string are falsy. *)
Definition truthy (v : option string) : bool :=
  match v with
  | None => false
  | Some s => negb (String.eqb s "")
  end.

End Storage.

(** How a JavaScript call or an awaited promise ends: with a value, or
    with a thrown error (a rejected promise). *)
Inductive Completion (E A : Type) : Type :=
| Normal (a : A)
| Throw (e : E).
Arguments Normal {E A} a.
Arguments Throw {E A} e.


(* ===================================================================== *)
(** ** authService *)
(* ===================================================================== *)

Module authService.
Import Storage.

(** The body of a successful [/auth/login] or [/auth/register]
    response. *)
Record AuthResponse := mkAuthResponse {
  token : string;
  userId : Z;
  username : string
}.

(** Decimal rendering of an integer, as [userId.toString()] gives for
    a number that holds a safe integer (one of magnitude below 2^53);
    beyond that a JavaScript number is rounded, and from 10^21 on it is
    written with an exponent. *)
Definition toString (n : Z) : string := pretty n.

(** What [login] and [register] do once the POST has resolved: the three
    [localStorage.setItem] calls. *)
Definition store_session (r : AuthResponse) (b : Browser) : Browser :=
  setItem "username" (username r)
    (setItem "userId" (toString (userId r))
      (setItem "token" (token r) b)).

(** [logout()]. *)
Definition logout (b : Browser) : Browser :=
  removeItem "username" (removeItem "userId" (removeItem "token" b)).

(** [isAuthenticated()]: [!!localStorage.getItem('token')]. *)
Definition isAuthenticated (b : Browser) : bool :=
  truthy (getItem "token" b).

End authService.

(* ===================================================================== *)
(** ** api: the axios instance and its interceptors *)
(* ===================================================================== *)

Module api.
Import Storage.

(** An HTTP response as the interceptors see it; [data] is the body. *)
Record Response := mkResponse {
  status : Z;
  data : string
}.

(** The error axios rejects with. [response] is [undefined] when no
    response arrived at all (a network failure). *)
Record AxiosError := mkAxiosError {
  response : option Response
}.

(** The request configuration, reduced to its headers. *)
Record Config := mkConfig {
  headers : gmap string string
}.

(** Request interceptor: adds the bearer header when a token is stored. *)
Definition request_fulfilled (config : Config) (b : Browser) : Config :=
  let token := getItem "token" b in
  match token with
  | Some t =>
      if truthy token
      then mkConfig (<["Authorization" := "Bearer " +:+ t]> (headers config))
      else config
  | None => config
  end.

(** Response interceptor, success side: [(response) => response]. *)
Definition response_fulfilled (r : Response) : Response := r.

(** [error.response?.status === 401]. *)
Definition is_401 (error : AxiosError) : bool :=
  match response error with
  | Some r => status r =? 401
  | None => false
  end.

(** Response interceptor, failure side: on a 401 the three session keys
    are removed and the window is sent to [/login]; the promise is
    rejected with the same error in every case. *)
Definition response_rejected (error : AxiosError) (b : Browser)
  : Completion AxiosError Response * Browser :=
  if is_401 error
  then (Throw error,
        navigate "/login"
          (removeItem "username" (removeItem "userId" (removeItem "token" b))))
  else (Throw error, b).

(** What the server answers to one REST call. *)
Inductive ServerReply :=
| Reply (r : Response)
| NetworkError.

(** axios settles a request by its default [validateStatus]: a status in
    [200, 300) fulfils the promise, any other status rejects it with an
    error that carries the response. *)
Definition settle (reply : ServerReply) : Completion AxiosError Response :=
  match reply with
  | Reply r =>
      if (200 <=? status r) && (status r <? 300)
      then Normal r
      else Throw (mkAxiosError (Some r))
  | NetworkError => Throw (mkAxiosError None)
  end.

(** One REST call through the instance ([api.get], [api.post]): the
    settled request passes through the response interceptor. *)
Definition call (reply : ServerReply) (b : Browser)
  : Completion AxiosError Response * Browser :=
  match settle reply with
  | Normal r => (Normal (response_fulfilled r), b)
  | Throw error => response_rejected error b
  end.

End api.

(* ===================================================================== *)
(** ** ChatService: the SignalR connection manager *)
(* ===================================================================== *)

Module ChatService.

(** [signalR.HubConnectionState], the lifecycle states of the transport
    as the @microsoft/signalr package declares them. *)
Inductive HubConnectionState :=
| Disconnected
| Connecting
| Connected
| Disconnecting
| Reconnecting.

#[global] Instance HubConnectionState_eq_dec : EqDecision HubConnectionState.
Proof. solve_decision. Defined.

(** The reason a promise of the transport rejects with. *)
Definition Error := string.

(** The hub methods the client invokes. *)
Inductive Invocation :=
| SendMessage (receiverId : Z) (content : string)
| GetConversation (otherUserId : Z).

#[global] Instance Invocation_eq_dec : EqDecision Invocation.
Proof. solve_decision. Defined.

(** The transport object ([signalR.HubConnection]) as the service uses
    it. Each asynchronous method returns the connection after the await
    and, when the promise rejected, the error. *)
Class HubConnection (T : Type) := {
  hub_build : string → T;
  hub_state : T → HubConnectionState;
  hub_start : T → T * option Error;
  hub_stop : T → T * option Error;
  hub_invoke : Invocation → T → T * option Error
}.

(** The retry context handed to [nextRetryDelayInMilliseconds]. *)
Record RetryContext := mkRetryContext {
  previousRetryCount : Z
}.

(** The reconnect policy given to [withAutomaticReconnect]. *)
Definition nextRetryDelayInMilliseconds (retryContext : RetryContext) : Z :=
  if previousRetryCount retryContext =? 0 then 0
  else if previousRetryCount retryContext =? 1 then 2000
  else if previousRetryCount retryContext =? 2 then 10000
  else 30000.

Record Message := mkMessage {
  m_id : Z;
  m_senderId : Z;
  m_receiverId : Z;
  m_content : string;
  m_timestamp : string
}.

Record User := mkUser {
  u_id : Z;
  u_username : string
}.

(** What the hub pushes to a handler, or a state name. *)
Inductive JsValue :=
| VNull
| VString (s : string)
| VMessage (m : Message)
| VMessages (ms : list Message)
| VUser (u : User).

(** An entry of the offline queue: [{ receiverId, content }]. *)
Record QueueEntry := mkQueueEntry {
  receiverId : Z;
  content : string
}.

#[global] Instance QueueEntry_eq_dec : EqDecision QueueEntry.
Proof. solve_decision. Defined.

(** A listener is a function object. The service stores it, compares it
    by identity ([c !== callback]) and calls it; it is named here by its
    identity, and what it does when it is called is given separately
    (see [Listeners] below). *)
Definition Callback := nat.

Inductive ConsoleLevel := Log | Warn | Err.

(** What the service does to the outside, in the order it happens. *)
Inductive Effect :=
| Started (r : option Error)
| Stopped (r : option Error)
| Invoked (i : Invocation) (r : option Error)
| Called (c : Callback) (arg : JsValue)
| Console (level : ConsoleLevel) (text : string).

(** The event kinds a listener can subscribe to. *)
Inductive EventKind :=
| MessageReceived
| MessageSent
| ConversationHistory
| ConnectionStateChanged
| UserRegistered.

#[global] Instance EventKind_eq_dec : EqDecision EventKind.
Proof. solve_decision. Defined.

(** A call a listener makes into the service while it runs: of a
    subscription method, or of the handle such a method returned. *)
Inductive Call :=
| CallOn (k : EventKind) (callback : Callback)
| CallHandle (k : EventKind) (callback : Callback).

#[global] Instance Call_eq_dec : EqDecision Call.
Proof. solve_decision. Defined.

(** What one call of a listener does, as far as the service can tell:
    the calls it makes into the service, in order, and then it returns
    or throws. *)
Record Reaction := mkReaction {
  does : list Call;
  raises : option Error
}.

(** An [async] method that was called and is waiting at an [await] for
    the transport, with nobody awaiting the method itself:
    - [flushMessageQueue], in its loop at the entry [e], whose request
      settles with [r], with the entries [rest] still to go;
    - [disconnect], whose [stop()] settles with [r]. *)
Inductive Task :=
| FlushTask (e : QueueEntry) (r : option Error) (rest : list QueueEntry)
| DisconnectTask (r : option Error).

Section Objects.
Context {T : Type}.

(** The fields the constructor sets. *)
Record ChatService := mkChatService {
  connection : option T;
  messageCallbacks : list Callback;
  messageSentCallbacks : list Callback;
  conversationHistoryCallbacks : list Callback;
  connectionStateCallbacks : list Callback;
  userRegisteredCallbacks : list Callback;
  messageQueue : list QueueEntry
}.

(** [constructor()]. *)
Definition new_ChatService : ChatService :=
  mkChatService None [] [] [] [] [] [].

Definition set_connection (c : option T) (s : ChatService) : ChatService :=
  mkChatService c (messageCallbacks s) (messageSentCallbacks s)
    (conversationHistoryCallbacks s) (connectionStateCallbacks s)
    (userRegisteredCallbacks s) (messageQueue s).

Definition set_messageCallbacks (l : list Callback) (s : ChatService) : ChatService :=
  mkChatService (connection s) l (messageSentCallbacks s)
    (conversationHistoryCallbacks s) (connectionStateCallbacks s)
    (userRegisteredCallbacks s) (messageQueue s).

Definition set_messageSentCallbacks (l : list Callback) (s : ChatService) : ChatService :=
  mkChatService (connection s) (messageCallbacks s) l
    (conversationHistoryCallbacks s) (connectionStateCallbacks s)
    (userRegisteredCallbacks s) (messageQueue s).

Definition set_conversationHistoryCallbacks (l : list Callback) (s : ChatService) : ChatService :=
  mkChatService (connection s) (messageCallbacks s) (messageSentCallbacks s)
    l (connectionStateCallbacks s)
    (userRegisteredCallbacks s) (messageQueue s).

Definition set_connectionStateCallbacks (l : list Callback) (s : ChatService) : ChatService :=
  mkChatService (connection s) (messageCallbacks s) (messageSentCallbacks s)
    (conversationHistoryCallbacks s) l
    (userRegisteredCallbacks s) (messageQueue s).

Definition set_userRegisteredCallbacks (l : list Callback) (s : ChatService) : ChatService :=
  mkChatService (connection s) (messageCallbacks s) (messageSentCallbacks s)
    (conversationHistoryCallbacks s) (connectionStateCallbacks s)
    l (messageQueue s).

Definition set_messageQueue (q : list QueueEntry) (s : ChatService) : ChatService :=
  mkChatService (connection s) (messageCallbacks s) (messageSentCallbacks s)
    (conversationHistoryCallbacks s) (connectionStateCallbacks s)
    (userRegisteredCallbacks s) q.

(** The listener list of an event kind. *)
Definition listeners (k : EventKind) (s : ChatService) : list Callback :=
  match k with
  | MessageReceived => messageCallbacks s
  | MessageSent => messageSentCallbacks s
  | ConversationHistory => conversationHistoryCallbacks s
  | ConnectionStateChanged => connectionStateCallbacks s
  | UserRegistered => userRegisteredCallbacks s
  end.

(** Assignment to the listener list of an event kind. *)
Definition set_listeners (k : EventKind) (l : list Callback) (s : ChatService)
  : ChatService :=
  match k with
  | MessageReceived => set_messageCallbacks l s
  | MessageSent => set_messageSentCallbacks l s
  | ConversationHistory => set_conversationHistoryCallbacks l s
  | ConnectionStateChanged => set_connectionStateCallbacks l s
  | UserRegistered => set_userRegisteredCallbacks l s
  end.

(** The service object, the effects performed so far, and the calls
    that wait at an [await] with nobody awaiting them. *)
Record World := mkWorld {
  this : ChatService;
  effects : list Effect;
  pending : list Task
}.

End Objects.

Arguments ChatService T : clear implicits.
Arguments World T : clear implicits.

(** The listeners there are. The code of a listener is any JavaScript
    function: when called it may look at its argument, at the service
    and at everything that happened so far, subscribe and unsubscribe
    listeners, and throw. A listener that calls one of the [async]
    methods of the service from inside a fan-out is outside this class. *)
Class Listeners (T : Type) := {
  listener_code : Callback → JsValue → World T → Reaction
}.

Section WithTransport.
Context {T : Type} `{HubConnection T} `{Listeners T}.

(** A method of the service: it reads and updates the world and ends
    normally or by throwing. An [async] method is run to its settlement;
    what the transport does during an [await] is in the connection it
    hands back. *)
Definition Js (A : Type) : Type := World T → Completion Error A * World T.

#[global] Instance Js_ret : MRet Js := λ A a w, (Normal a, w).

#[global] Instance Js_bind : MBind Js := λ A B f m w,
  match m w with
  | (Normal a, w') => f a w'
  | (Throw e, w') => (Throw e, w')
  end.

Definition throw {A} (e : Error) : Js A := λ w, (Throw e, w).

(** [try { body } catch (error) { handler }]. *)
Definition try_catch {A} (body : Js A) (handler : Error → Js A) : Js A := λ w,
  match body w with
  | (Normal a, w') => (Normal a, w')
  | (Throw e, w') => handler e w'
  end.

Definition gets {A} (f : ChatService T → A) : Js A := λ w, (Normal (f (this w)), w).

Definition modify (f : ChatService T → ChatService T) : Js unit := λ w,
  (Normal tt, mkWorld (f (this w)) (effects w) (pending w)).

Definition emit (e : Effect) : Js unit := λ w,
  (Normal tt, mkWorld (this w) (effects w ++ [e]) (pending w)).

(** An [async] method reaches an [await] and nobody awaits the method:
    the rest of it runs when the awaited promise has settled. *)
Definition spawn (task : Task) : Js unit := λ w,
  (Normal tt, mkWorld (this w) (effects w) (pending w ++ [task])).

Definition console (level : ConsoleLevel) (text : string) : Js unit :=
  emit (Console level text).

(** [array.forEach(f)] and [for (const x of array)]: the elements the
    array holds when the loop starts, in index order. A [push] during
    the loop is not visited, and an assignment of a new array to the
    field does not reach the loop. *)
Fixpoint forEach {A} (l : list A) (f : A → Js unit) : Js unit :=
  match l with
  | [] => mret tt
  | x :: l' => f x;; forEach l' f
  end.

(** The end of a call or of an awaited promise that settles with [r]. *)
Definition settled (r : option Error) : Js unit :=
  match r with
  | None => mret tt
  | Some e => throw e
  end.

(** [this.connection.start()]: the call, and what its promise settles
    with. *)
Definition start_call : Js (option Error) :=
  c ← gets connection;
  match c with
  | None => throw "TypeError: this.connection is null"
  | Some t =>
      let '(t', r) := hub_start t in
      modify (set_connection (Some t'));;
      emit (Started r);;
      mret r
  end.

(** [this.connection.stop()]. *)
Definition stop_call : Js (option Error) :=
  c ← gets connection;
  match c with
  | None => throw "TypeError: this.connection is null"
  | Some t =>
      let '(t', r) := hub_stop t in
      modify (set_connection (Some t'));;
      emit (Stopped r);;
      mret r
  end.

(** [this.connection.invoke(method, ...args)]. *)
Definition invoke_call (i : Invocation) : Js (option Error) :=
  c ← gets connection;
  match c with
  | None => throw "TypeError: this.connection is null"
  | Some t =>
      let '(t', r) := hub_invoke i t in
      modify (set_connection (Some t'));;
      emit (Invoked i r);;
      mret r
  end.

(** [await this.connection.start()]. *)
Definition connection_start : Js unit :=
  r ← start_call; settled r.

(** [await this.connection.stop()]. *)
Definition connection_stop : Js unit :=
  r ← stop_call; settled r.

(** [await this.connection.invoke(method, ...args)]. *)
Definition connection_invoke (i : Invocation) : Js unit :=
  r ← invoke_call i; settled r.

(** [this.connection && this.connection.state === Connected], the
    negation of the guard of [sendMessage] and [getConversation]. *)
Definition is_connected (c : option T) : bool :=
  match c with
  | None => false
  | Some t => bool_decide (hub_state t = Connected)
  end.

(** The five subscription methods. Each returns the closure that
    removes the listener again. *)
Definition onMessageReceived (callback : Callback) : Js (Js unit) :=
  modify (λ s, set_messageCallbacks (messageCallbacks s ++ [callback]) s);;
  mret (modify (λ s,
    set_messageCallbacks (filter (λ c, c ≠ callback) (messageCallbacks s)) s)).

Definition onMessageSent (callback : Callback) : Js (Js unit) :=
  modify (λ s, set_messageSentCallbacks (messageSentCallbacks s ++ [callback]) s);;
  mret (modify (λ s,
    set_messageSentCallbacks (filter (λ c, c ≠ callback) (messageSentCallbacks s)) s)).

Definition onConversationHistory (callback : Callback) : Js (Js unit) :=
  modify (λ s, set_conversationHistoryCallbacks
                 (conversationHistoryCallbacks s ++ [callback]) s);;
  mret (modify (λ s,
    set_conversationHistoryCallbacks
      (filter (λ c, c ≠ callback) (conversationHistoryCallbacks s)) s)).

Definition onConnectionStateChanged (callback : Callback) : Js (Js unit) :=
  modify (λ s, set_connectionStateCallbacks (connectionStateCallbacks s ++ [callback]) s);;
  mret (modify (λ s,
    set_connectionStateCallbacks
      (filter (λ c, c ≠ callback) (connectionStateCallbacks s)) s)).

Definition onUserRegistered (callback : Callback) : Js (Js unit) :=
  modify (λ s, set_userRegisteredCallbacks (userRegisteredCallbacks s ++ [callback]) s);;
  mret (modify (λ s,
    set_userRegisteredCallbacks
      (filter (λ c, c ≠ callback) (userRegisteredCallbacks s)) s)).

(** The subscription method of an event kind. *)
Definition subscribe (k : EventKind) : Callback → Js (Js unit) :=
  match k with
  | MessageReceived => onMessageReceived
  | MessageSent => onMessageSent
  | ConversationHistory => onConversationHistory
  | ConnectionStateChanged => onConnectionStateChanged
  | UserRegistered => onUserRegistered
  end.

(** The deregistration handle [subscribe k callback] returns, taken from
    a call on a fresh service; it is the same closure whatever the
    service holds when the subscription is made. *)
Definition unsubscribe (k : EventKind) (callback : Callback) : Js unit :=
  match fst (subscribe k callback (mkWorld new_ChatService [] [])) with
  | Normal handle => handle
  | Throw e => throw e
  end.

(** A call a listener makes into the service. *)
Definition run_call (c : Call) : Js unit :=
  match c with
  | CallOn k callback => handle ← subscribe k callback; mret tt
  | CallHandle k callback => unsubscribe k callback
  end.

(** [callback(arg)]: the listener runs, in the world as it is when it
    is called; what it throws, the caller gets. *)
Definition call_listener (callback : Callback) (arg : JsValue) : Js unit := λ w,
  let reaction := listener_code callback arg w in
  (emit (Called callback arg);;
   forEach (does reaction) run_call;;
   settled (raises reaction)) w.

(** [notifyConnectionState(state)]. *)
Definition notifyConnectionState (state : string) : Js unit :=
  cbs ← gets connectionStateCallbacks;
  forEach cbs (λ callback, call_listener callback (VString state)).

(** [disconnect()]. *)
Definition disconnect : Js unit :=
  c ← gets connection;
  match c with
  | Some _ =>
      connection_stop;;
      modify (set_connection None)
  | None => mret tt
  end.

(** [sendMessage(receiverId, content)]. *)
Definition sendMessage (receiverId : Z) (content : string) : Js unit :=
  c ← gets connection;
  if negb (is_connected c) then
    modify (λ s, set_messageQueue (messageQueue s ++ [mkQueueEntry receiverId content]) s);;
    console Log "Message queued (offline):";;
    mret tt
  else
    try_catch
      (connection_invoke (SendMessage receiverId content))
      (λ error,
        modify (λ s, set_messageQueue (messageQueue s ++ [mkQueueEntry receiverId content]) s);;
        console Err "Failed to send message, queued for retry:").

(** [getConversation(otherUserId)]. *)
Definition getConversation (otherUserId : Z) : Js unit :=
  c ← gets connection;
  if negb (is_connected c) then
    console Warn "Cannot get conversation: not connected";;
    mret tt
  else
    try_catch
      (connection_invoke (GetConversation otherUserId))
      (λ error, console Err "Failed to get conversation:").

(** [flushMessageQueue()]. *)
Definition flushMessageQueue : Js unit :=
  q ← gets messageQueue;
  if (length q =? 0)%nat then mret tt
  else
    console Log ("Sending " +:+ pretty (length q) +:+ " queued messages...");;
    let queue := q in
    modify (set_messageQueue []);;
    forEach queue (λ e, sendMessage (receiverId e) (content e)).

(** The same methods when their caller does not await them. The call
    runs the method as far as its first [await] for the transport; the
    rest, from the settlement of that promise on, is left as a task. *)

(** [sendMessage(receiverId, content)] as far as the call gets: to its
    [return] when the service is not connected, otherwise to the
    [await], with the request sent and settling with the result. *)
Definition sendMessage_started (receiverId : Z) (content : string)
  : Js (option (option Error)) :=
  c ← gets connection;
  if negb (is_connected c) then
    modify (λ s, set_messageQueue (messageQueue s ++ [mkQueueEntry receiverId content]) s);;
    console Log "Message queued (offline):";;
    mret None
  else
    r ← invoke_call (SendMessage receiverId content);
    mret (Some r).

(** [sendMessage(receiverId, content)] from its [await] on, once the
    request has settled with [r]. *)
Definition sendMessage_settled (receiverId : Z) (content : string) (r : option Error)
  : Js unit :=
  try_catch
    (settled r)
    (λ error,
      modify (λ s, set_messageQueue (messageQueue s ++ [mkQueueEntry receiverId content]) s);;
      console Err "Failed to send message, queued for retry:").

(** The loop of [flushMessageQueue] over the entries still to go: it
    runs on while [sendMessage] returns without waiting, and stops at
    the first entry whose request goes out. *)
Fixpoint flush_loop (queue : list QueueEntry) : Js unit :=
  match queue with
  | [] => mret tt
  | e :: rest =>
      o ← sendMessage_started (receiverId e) (content e);
      match o with
      | None => flush_loop rest
      | Some r => spawn (FlushTask e r rest)
      end
  end.

(** [this.flushMessageQueue()], not awaited. *)
Definition flushMessageQueue_started : Js unit :=
  q ← gets messageQueue;
  if (length q =? 0)%nat then mret tt
  else
    console Log ("Sending " +:+ pretty (length q) +:+ " queued messages...");;
    let queue := q in
    modify (set_messageQueue []);;
    flush_loop queue.

(** [chatService.disconnect()], not awaited. *)
Definition disconnect_started : Js unit :=
  c ← gets connection;
  match c with
  | Some _ =>
      r ← stop_call;
      spawn (DisconnectTask r)
  | None => mret tt
  end.

(** A task goes on once the promise it waits for has settled. A throw
    rejects the promise of the method, which nobody holds. *)
Definition resume (task : Task) : Js unit :=
  match task with
  | FlushTask e r rest =>
      sendMessage_settled (receiverId e) (content e) r;;
      flush_loop rest
  | DisconnectTask r =>
      settled r;;
      modify (set_connection None)
  end.

(** The task at position [n] of the pool goes on, if there is one. *)
Definition resume_at (n : nat) : Js unit := λ w,
  match pending w !! n with
  | Some task => resume task (mkWorld (this w) (effects w) (delete n (pending w)))
  | None => (Normal tt, w)
  end.

(** The handlers [connect] registers on the connection. The transport
    calls them; each is the body of the arrow function in the source. *)
Definition on_ReceiveMessage (message : JsValue) : Js unit :=
  cbs ← gets messageCallbacks;
  forEach cbs (λ callback, call_listener callback message).

Definition on_MessageSent (message : JsValue) : Js unit :=
  cbs ← gets messageSentCallbacks;
  forEach cbs (λ callback, call_listener callback message).

Definition on_ConversationHistory (messages : JsValue) : Js unit :=
  cbs ← gets conversationHistoryCallbacks;
  forEach cbs (λ callback, call_listener callback messages).

Definition on_UserRegistered (user : JsValue) : Js unit :=
  cbs ← gets userRegisteredCallbacks;
  forEach cbs (λ callback, call_listener callback user).

Definition on_Error (error : JsValue) : Js unit :=
  console Err "SignalR Error:".

Definition onreconnecting : Js unit :=
  console Log "SignalR reconnecting...";;
  notifyConnectionState "reconnecting".

Definition onreconnected : Js unit :=
  console Log "SignalR reconnected";;
  notifyConnectionState "connected";;
  flushMessageQueue_started.

Definition onclose : Js unit :=
  console Log "SignalR connection closed";;
  notifyConnectionState "disconnected".

(** [connect(token)]. The handler registrations between [build()] and
    [start()] change nothing in the service; the handlers are the
    definitions above. *)
Definition connect (token : string) : Js unit :=
  c ← gets connection;
  (if c is Some _ then disconnect else mret tt);;
  modify (set_connection (Some (hub_build token)));;
  try_catch
    (connection_start;;
     console Log "SignalR connected";;
     notifyConnectionState "connected")
    (λ error,
      console Err "SignalR connection error:";;
      notifyConnectionState "error";;
      throw error).

(** [getConnectionState()]. *)
Definition getConnectionState (s : ChatService T) : string :=
  match connection s with
  | None => "disconnected"
  | Some t =>
      match hub_state t with
      | Connected => "connected"
      | Connecting => "connecting"
      | Reconnecting => "reconnecting"
      | Disconnected => "disconnected"
      | _ => "unknown"
      end
  end.

End WithTransport.

Arguments Js T A : clear implicits.

End ChatService.

(* ===================================================================== *)
(** ** Observations on runs of the ChatService *)
(* ===================================================================== *)

Module ChatServiceSpec.
Import ChatService.

(** The settled [connection.invoke] calls among some effects. *)
Definition invocations (es : list Effect) : list (Invocation * option Error) :=
  omap (λ e, match e with Invoked i r => Some (i, r) | _ => None end) es.

(** The queue entries whose remote [SendMessage] resolved. *)
Definition delivered (es : list Effect) : list QueueEntry :=
  omap (λ e, match e with
             | Invoked (SendMessage r c) None => Some (mkQueueEntry r c)
             | _ => None
             end) es.

(** The queue entries whose remote [SendMessage] rejected. *)
Definition rejected (es : list Effect) : list QueueEntry :=
  omap (λ e, match e with
             | Invoked (SendMessage r c) (Some _) => Some (mkQueueEntry r c)
             | _ => None
             end) es.

(** The listener calls among some effects. *)
Definition calls (es : list Effect) : list (Callback * JsValue) :=
  omap (λ e, match e with Called c v => Some (c, v) | _ => None end) es.

(** The remote call a successful resend of a queue entry makes. *)
Definition resend_of (e : QueueEntry) : Invocation * option Error :=
  (SendMessage (receiverId e) (content e), None).

(** The queue entry a call [sendMessage(receiverId, content)] stands
    for. *)
Definition entry_of (send : Z * string) : QueueEntry :=
  mkQueueEntry send.1 send.2.

(** An event the service fans out to listeners. *)
Inductive Event :=
| EvReceiveMessage (message : JsValue)
| EvMessageSent (message : JsValue)
| EvConversationHistory (messages : JsValue)
| EvUserRegistered (user : JsValue)
| EvConnectionState (state : string).



(** The operations a caller of the service can make. *)
Inductive PublicOp :=
| OpConnect (token : string)
| OpDisconnect
| OpSendMessage (receiverId : Z) (content : string)
| OpGetConversation (otherUserId : Z)
| OpFlushQueue.

(** Transport callbacks that are not fan-outs of a hub event. *)
Inductive Lifecycle :=
| LcReconnecting
| LcReconnected
| LcClose
| LcError (error : JsValue).

(** One thing that happens to the service: a call of its API, a call
    of a deregistration handle, a callback from the transport, or the
    settlement of the promise the pending task at position [n] waits
    for. *)
Inductive Action :=
| ASubscribe (k : EventKind) (callback : Callback)
| AUnsubscribe (k : EventKind) (callback : Callback)
| AFire (e : Event)
| AOp (op : PublicOp)
| ALifecycle (l : Lifecycle)
| AResume (n : nat).

(** The actions that can change the offline queue: a send, a flush,
    the reconnect callback, which starts a flush, and the settlement a
    started flush waits for. *)
Definition queue_action (a : Action) : bool :=
  match a with
  | AOp (OpSendMessage _ _) | AOp OpFlushQueue | ALifecycle LcReconnected
  | AResume _ => true
  | _ => false
  end.

(** What the resend of a queue entry came to: no request, because the
    service was not connected, or a request that settled with [r]. *)
Inductive Resent :=
| NotSent
| Sent (r : option Error).

(** The entries a flush puts back into the queue: all but those whose
    request resolved. *)
Definition requeued (rs : list (QueueEntry * Resent)) : list QueueEntry :=
  omap (λ er : QueueEntry * Resent,
          match er.2 with Sent None => None | _ => Some er.1 end) rs.

(** The remote calls a flush makes. *)
Definition requests (rs : list (QueueEntry * Resent)) : list (Invocation * option Error) :=
  omap (λ er : QueueEntry * Resent,
          match er.2 with
          | Sent r => Some (SendMessage (receiverId er.1) (content er.1), r)
          | NotSent => None
          end) rs.

(** The state names the service itself passes to a listener. *)
Definition notified_states : list string :=
  ["connected"; "error"; "reconnecting"; "disconnected"].

Section WithTransport.
Context {T : Type} `{HubConnection T} `{Listeners T}.

Definition run {A} (m : Js T A) (w : World T) : Completion Error A := fst (m w).
Definition exec {A} (m : Js T A) (w : World T) : World T := snd (m w).

(** The transport object of the service is replaced or changes state on
    its own (a drop, a reconnect). *)
Definition transport_becomes (c : option T) (w : World T) : World T :=
  mkWorld (set_connection c (this w)) (effects w) (pending w).

(** The handler the service runs when an event arrives. *)
Definition fire (e : Event) : Js T unit :=
  match e with
  | EvReceiveMessage v => on_ReceiveMessage v
  | EvMessageSent v => on_MessageSent v
  | EvConversationHistory v => on_ConversationHistory v
  | EvUserRegistered v => on_UserRegistered v
  | EvConnectionState s => notifyConnectionState s
  end.

Definition run_op (op : PublicOp) : Js T unit :=
  match op with
  | OpConnect token => connect token
  | OpDisconnect => disconnect
  | OpSendMessage receiverId content => sendMessage receiverId content
  | OpGetConversation otherUserId => getConversation otherUserId
  | OpFlushQueue => flushMessageQueue
  end.

Definition run_lifecycle (l : Lifecycle) : Js T unit :=
  match l with
  | LcReconnecting => onreconnecting
  | LcReconnected => onreconnected
  | LcClose => onclose
  | LcError error => on_Error error
  end.

(** The world after an action; a throw ends the action, not the
    session. *)
Definition step (a : Action) (w : World T) : World T :=
  match a with
  | ASubscribe k callback => exec (subscribe k callback) w
  | AUnsubscribe k callback => exec (unsubscribe k callback) w
  | AFire e => exec (fire e) w
  | AOp op => exec (run_op op) w
  | ALifecycle l => exec (run_lifecycle l) w
  | AResume n => exec (resume_at n) w
  end.

Definition steps (acts : list Action) (w : World T) : World T :=
  foldl (λ w a, step a w) w acts.


(** Sends submitted one after the other, each while the service is not
    connected; between two sends the transport may change in any way. *)
Inductive offline_sends : World T → list (Z * string) → World T → Prop :=
| offline_done w :
    offline_sends w [] w
| offline_send w r c sends w' :
    is_connected (connection (this w)) = false →
    offline_sends (exec (sendMessage r c) w) sends w' →
    offline_sends w ((r, c) :: sends) w'
| offline_transport w c' sends w' :
    offline_sends (transport_becomes c' w) sends w' →
    offline_sends w sends w'.

(** The connection the service holds refuses to stop, with error [e]. *)
Definition stop_rejects (w : World T) (e : Error) : Prop :=
  ∃ t, connection (this w) = Some t ∧ snd (hub_stop t) = Some e.

(** Every resend of the queue [q], made in order on the transport [t],
    finds it connected and resolves. *)
Fixpoint all_resends_succeed (t : T) (q : list QueueEntry) : Prop :=
  match q with
  | [] => True
  | e :: q' =>
      hub_state t = Connected ∧
      snd (hub_invoke (SendMessage (receiverId e) (content e)) t) = None ∧
      all_resends_succeed (fst (hub_invoke (SendMessage (receiverId e) (content e)) t)) q'
  end.

(** The transport the service can send on: the one it holds, when that
    is connected. *)
Definition connected_transport (c : option T) : option T :=
  match c with
  | Some t => if bool_decide (hub_state t = Connected) then Some t else None
  | None => None
  end.

(** The flush as the specification words it, for comparison with
    [flushMessageQueue]: the entries of the snapshot are resent in their
    original order, each on the connection as the resend before it left
    it; an entry is sent when the service is connected at its turn. The
    result is what each resend came to, and the connection afterwards. *)
Fixpoint resends (c : option T) (queue : list QueueEntry)
  : list (QueueEntry * Resent) * option T :=
  match queue with
  | [] => ([], c)
  | e :: rest =>
      match connected_transport c with
      | Some t =>
          let '(t', r) := hub_invoke (SendMessage (receiverId e) (content e)) t in
          let '(rs, c') := resends (Some t') rest in
          ((e, Sent r) :: rs, c')
      | None =>
          let '(rs, c') := resends c rest in
          ((e, NotSent) :: rs, c')
      end
  end.





(** A property of the world that a method keeps. *)
Definition invariant (I : World T → Prop) {A} (m : Js T A) : Prop :=
  ∀ w, I w → I (exec m w).

End WithTransport.

(** The names of the connection state enumeration. *)
Definition connection_states : list string :=
  ["connecting"; "connected"; "reconnecting"; "disconnected"; "error"].

(** A transport for examples: it follows a script of outcomes, one per
    [start], [stop] or [invoke], and resolves once the script is used up.
    The hub it stands for refuses the handshake of an empty token. *)
Record Scripted := mkScripted {
  s_state : HubConnectionState;
  s_script : list (option Error)
}.

Definition scripted_next (after : HubConnectionState → option Error → HubConnectionState)
    (t : Scripted) : Scripted * option Error :=
  match s_script t with
  | [] => (mkScripted (after (s_state t) None) [], None)
  | r :: script => (mkScripted (after (s_state t) r) script, r)
  end.

#[global] Instance Scripted_hub : HubConnection Scripted := {
  hub_build token :=
    mkScripted Disconnected (if String.eqb token "" then [Some "Unauthorized"] else []);
  hub_state := s_state;
  hub_start := scripted_next (λ _ r, if r is None then Connected else Disconnected);
  hub_stop := scripted_next (λ _ _, Disconnected);
  hub_invoke _ := scripted_next (λ st _, st)
}.

(** Listeners for examples. Listener 10 throws whatever it is called
    with; 11 throws when it is told the state ['connected']; 12 calls
    the handle that removes 13 from the message listeners; 14 subscribes
    15 to the connection state and then throws if it was told
    ['connected']; 16 calls its own handle for incoming messages. Every
    other listener just returns. *)
Definition scripted_does (callback : Callback) : list Call :=
  match callback with
  | 12%nat => [CallHandle MessageReceived 13%nat]
  | 14%nat => [CallOn ConnectionStateChanged 15%nat]
  | 16%nat => [CallHandle MessageReceived 16%nat]
  | _ => []
  end.

Definition scripted_raises (callback : Callback) (arg : JsValue) : option Error :=
  match callback with
  | 10%nat => Some "listener failed"
  | 11%nat =>
      match arg with
      | VString state => if String.eqb state "connected" then Some "not ready" else None
      | _ => None
      end
  | 14%nat =>
      match arg with
      | VString state => if String.eqb state "connected" then Some "not ready" else None
      | _ => None
      end
  | _ => None
  end.

#[global] Instance Scripted_listeners : Listeners Scripted := {
  listener_code callback arg w :=
    mkReaction (scripted_does callback) (scripted_raises callback arg)
}.

(** A service on that transport that never connected. *)
Definition fresh : World Scripted := mkWorld new_ChatService [] [].

End ChatServiceSpec.

(* ===================================================================== *)
(** ** Chat: handlers of the chat page *)
(* ===================================================================== *)

Module Chat.

(** A JavaScript number that holds an integer or [NaN];
    [parseInt(localStorage.getItem('userId'))] is [NaN] when nothing
    usable is stored. *)
Inductive JsNumber :=
| NaN
| Num (z : Z).

(** [a === b] on such numbers: [NaN] equals nothing. *)
Definition strict_equals (a b : JsNumber) : bool :=
  match a, b with
  | Num x, Num y => x =? y
  | _, _ => false
  end.

Record User := mkUser {
  id : Z;
  username : string
}.

(** What [authService.getCurrentUser()] returned. *)
Record CurrentUser := mkCurrentUser {
  userId : JsNumber;
  currentUsername : option string;
  token : option string
}.

(** The [useState] slots of the page the handlers write. *)
Record State := mkState {
  users : list User;
  selectedUser : option User;
  connectionStatus : string
}.

(** [setUsers(updater)]. *)
Definition setUsers (updater : list User → list User) (st : State) : State :=
  mkState (updater (users st)) (selectedUser st) (connectionStatus st).

(** [handleUserRegistered(user)]; [user] may be [null]. *)
Definition handleUserRegistered (currentUser : CurrentUser) (user : option User)
    (st : State) : State :=
  match user with
  | None => st
  | Some user =>
      if strict_equals (Num (id user)) (userId currentUser) then st
      else
        setUsers (λ prev,
          if existsb (λ u, id u =? id user) prev then prev
          else prev ++ [user]) st
  end.

(** A message as the hub delivers it. *)
Record Message := mkMessage {
  messageId : Z;
  senderId : Z;
  receiverId : Z;
  content : string;
  timestamp : string
}.

(** [handleMessageReceived(message)], on the [messages] slot;
    [activeUser] is [selectedUserRef.current]. *)
Definition handleMessageReceived (activeUser : option User) (message : Message)
    (prev : list Message) : list Message :=
  match activeUser with
  | Some activeUser =>
      if (senderId message =? id activeUser) || (receiverId message =? id activeUser)
      then prev ++ [message]
      else prev
  | None => prev
  end.

(** [handleMessageSent(message)], on the [messages] slot. *)
Definition handleMessageSent (activeUser : option User) (message : Message)
    (prev : list Message) : list Message :=
  match activeUser with
  | Some activeUser =>
      if receiverId message =? id activeUser
      then prev ++ [message]
      else prev
  | None => prev
  end.

(** [handleConversationHistory(conversationMessages)]. *)
Definition handleConversationHistory (conversationMessages : list Message)
    (prev : list Message) : list Message :=
  conversationMessages.

(** The message involves the user: it was sent by or to them. *)
Definition involves (u : User) (m : Message) : Prop :=
  senderId m = id u ∨ receiverId m = id u.

(** StrWhiteSpaceChar, for the characters a stored string can hold here
    (a character of a [string] stands for a code unit below 256). *)
Definition isStrWhiteSpaceChar (a : ascii) : bool :=
  let n := N_of_ascii a in
  ((9 <=? n) && (n <=? 13) || (n =? 32) || (n =? 160))%N.

Fixpoint skipWhiteSpace (s : string) : string :=
  match s with
  | EmptyString => EmptyString
  | String a s' => if isStrWhiteSpaceChar a then skipWhiteSpace s' else s
  end.

(** The value of a character as a digit of the radix, if it is one:
    [0-9], then [a-z] or [A-Z] for ten and up. *)
Definition digitValue (radix : N) (a : ascii) : option N :=
  let n := N_of_ascii a in
  let v :=
    (if (48 <=? n) && (n <=? 57) then Some (n - 48)
     else if (97 <=? n) && (n <=? 122) then Some (n - 87)
     else if (65 <=? n) && (n <=? 90) then Some (n - 55)
     else None)%N in
  match v with
  | Some d => if (d <? radix)%N then Some d else None
  | None => None
  end.

(** The value of the longest prefix of digits, read after the digits
    already in [acc]; [None] while no digit has been read. *)
Fixpoint parseDigits (radix : N) (s : string) (acc : option N) : option N :=
  match s with
  | EmptyString => acc
  | String a s' =>
      match digitValue radix a with
      | Some d => parseDigits radix s' (Some (default 0 acc * radix + d)%N)
      | None => acc
      end
  end.

(** A leading sign and the rest. *)
Definition stripSign (s : string) : Z * string :=
  match s with
  | String "-"%char s' => (-1, s')
  | String "+"%char s' => (1, s')
  | _ => (1, s)
  end.

(** A leading [0x] or [0X] selects radix 16. *)
Definition stripPrefix (s : string) : N * string :=
  match s with
  | String "0"%char (String "x"%char s') => (16%N, s')
  | String "0"%char (String "X"%char s') => (16%N, s')
  | _ => (10%N, s)
  end.

(** [parseInt(v)] with no radix, for [v] a string or [null] (which is
    read as the string ["null"]). The result is exact; a JavaScript
    number holds it exactly up to 2^53. *)
Definition parseInt (v : option string) : JsNumber :=
  let inputString := match v with Some s => s | None => "null" end in
  let '(sign, rest) := stripSign (skipWhiteSpace inputString) in
  let '(radix, digits) := stripPrefix rest in
  match parseDigits radix digits None with
  | Some n => Num (sign * Z.of_N n)
  | None => NaN
  end.

(** The decimal digits, as characters. *)
Definition digitChars : list ascii :=
  ["0"; "1"; "2"; "3"; "4"; "5"; "6"; "7"; "8"; "9"]%char.

(** A string that begins with a decimal digit followed by nothing or by
    another decimal digit. *)
Definition decimalHead (str : string) : Prop :=
  ∃ a rest, str = String a rest ∧ a ∈ digitChars ∧
            (rest = "" ∨ ∃ a' rest', rest = String a' rest' ∧ a' ∈ digitChars).

(** [authService.getCurrentUser()]. *)
Definition getCurrentUser (b : Storage.Browser) : CurrentUser :=
  mkCurrentUser (parseInt (Storage.getItem "userId" b))
                (Storage.getItem "username" b)
                (Storage.getItem "token" b).

(** The integers a JavaScript number holds exactly
    ([Number.MAX_SAFE_INTEGER] is 2^53 - 1). *)
Definition isSafeInteger (n : Z) : Prop :=
  - (2 ^ 53 - 1) ≤ n ≤ 2 ^ 53 - 1.

End Chat.

(* ===================================================================== *)
(** ** Chat: handlers that use the services *)
(* ===================================================================== *)

Module ChatSession.
Import ChatService.

Section WithTransport.
Context {T : Type} `{HubConnection T}.

(** [loadConversation(userId)]: the [messages] slot afterwards and the
    call of the service. *)
Definition loadConversation (userId : Z) (messages : list Chat.Message)
  : list Chat.Message * Js T unit :=
  ([], getConversation userId).

(** [handleSendMessage(content)]. *)
Definition handleSendMessage (selectedUser : option Chat.User) (content : string)
  : Js T unit :=
  match selectedUser with
  | None => mret tt
  | Some selectedUser => sendMessage (Chat.id selectedUser) content
  end.

(** [handleLogout()]: [disconnect()] is called and not awaited;
    [navigate] is the router's, modelled as the location it sets. *)
Definition handleLogout (w : World T) (b : Storage.Browser)
  : World T * Storage.Browser :=
  (snd (disconnect_started w),
   Storage.navigate "/login" (authService.logout b)).

End WithTransport.
End ChatSession.

(* ===================================================================== *)
(** ** MessageInput: the composer *)
(* ===================================================================== *)

Module MessageInput.

(** A JavaScript string: a sequence of UTF-16 code units. *)
Definition JsString := list N.

(** WhiteSpace and LineTerminator code points of ECMAScript, the
    characters [String.prototype.trim] strips. *)
Definition isWhiteSpace (c : N) : bool :=
  ((9 <=? c) && (c <=? 13) ||
   (c =? 32) || (c =? 160) || (c =? 5760) ||
   (8192 <=? c) && (c <=? 8202) ||
   (c =? 8232) || (c =? 8233) || (c =? 8239) || (c =? 8287) ||
   (c =? 12288) || (c =? 65279))%N.

Fixpoint trimStart (s : JsString) : JsString :=
  match s with
  | [] => []
  | c :: s' => if isWhiteSpace c then trimStart s' else s
  end.

Definition trimEnd (s : JsString) : JsString :=
  reverse (trimStart (reverse s)).

(** [s.trim()]. *)
Definition trim (s : JsString) : JsString :=
  trimEnd (trimStart s).

(** Truthiness of a string: non-empty. *)
Definition truthy (s : JsString) : bool :=
  match s with [] => false | _ => true end.

(** Every code unit of the string is white space (so is the empty
    string). *)
Definition whitespace_only (s : JsString) : bool :=
  forallb isWhiteSpace s.

(** [handleSend()], given the [message] state and the [disabled] prop:
    the arguments [onSendMessage] is called with, in order, and the
    [message] state afterwards. *)
Definition handleSend (message : JsString) (disabled : bool)
  : list JsString * JsString :=
  if truthy (trim message) && negb disabled
  then ([trim message], [])
  else ([], message).

(** The [disabled] attribute of the Send button:
    [disabled || !message.trim()]. *)
Definition buttonDisabled (message : JsString) (disabled : bool) : bool :=
  disabled || negb (truthy (trim message)).

(** [handleKeyPress(e)], given [e.key] and [e.shiftKey]: whether
    [e.preventDefault()] was called, and what [handleSend] did. *)
Definition handleKeyPress (key : string) (shiftKey : bool)
    (message : JsString) (disabled : bool)
  : bool * (list JsString * JsString) :=
  if String.eqb key "Enter" && negb shiftKey
  then (true, handleSend message disabled)
  else (false, ([], message)).

End MessageInput.

(* ===================================================================== *)
(** ** ConnectionStatus: the status indicator *)
(* ===================================================================== *)

Module ConnectionStatus.

Record StatusInfo := mkStatusInfo {
  text : string;
  color : string
}.

(** [getStatusInfo()], given the [status] prop. *)
Definition getStatusInfo (status : string) : StatusInfo :=
  if String.eqb status "connected" then mkStatusInfo "Connected" "#4caf50"
  else if String.eqb status "connecting" then mkStatusInfo "Connecting..." "#ff9800"
  else if String.eqb status "reconnecting" then mkStatusInfo "Reconnecting..." "#ff9800"
  else if String.eqb status "disconnected" then mkStatusInfo "Disconnected" "#f44336"
  else if String.eqb status "error" then mkStatusInfo "Connection Error" "#f44336"
  else mkStatusInfo "Unknown" "#999".

End ConnectionStatus.

(* ===================================================================== *)
(** ** App and ProtectedRoute: the route table *)
(* ===================================================================== *)

Module Routes.
Import Storage.

Inductive Page := LoginPage | RegisterPage | ChatPage.

(** What a route renders: a page, or a redirect. *)
Inductive Element :=
| Render (p : Page)
| Navigate (to : string).

(** The four routes of [App]. *)
Inductive Route := RouteLogin | RouteRegister | RouteChat | RouteRoot.

(** [ProtectedRoute({ children })]. *)
Definition ProtectedRoute (children : Element) (b : Browser) : Element :=
  if negb (authService.isAuthenticated b) then Navigate "/login" else children.

(** The [element] of each route of [App]. *)
Definition App (r : Route) (b : Browser) : Element :=
  match r with
  | RouteLogin => Render LoginPage
  | RouteRegister => Render RegisterPage
  | RouteChat => ProtectedRoute (Render ChatPage) b
  | RouteRoot =>
      if authService.isAuthenticated b then Navigate "/chat" else Navigate "/login"
  end.

(** The route of a path the application itself navigates to. *)
Definition routeOf (path : string) : option Route :=
  if String.eqb path "/login" then Some RouteLogin
  else if String.eqb path "/register" then Some RouteRegister
  else if String.eqb path "/chat" then Some RouteChat
  else if String.eqb path "/" then Some RouteRoot
  else None.

(** The page shown for a route once its redirects are followed, at most
    [fuel] of them, while storage stays as it is. *)
Fixpoint shown (fuel : nat) (r : Route) (b : Browser) : option Page :=
  match App r b with
  | Render p => Some p
  | Navigate to =>
      match fuel, routeOf to with
      | S fuel', Some r' => shown fuel' r' b
      | _, _ => None
      end
  end.

End Routes.

(* ===================================================================== *)
(** ** authService.login and register, and the Login page *)
(* ===================================================================== *)

Module Login.
Import Storage.

(** A property of a JSON body as destructuring reads it: absent
    ([undefined]), [null], or a value. *)
Inductive Field (A : Type) :=
| Missing
| Null
| Present (a : A).
Arguments Missing {A}.
Arguments Null {A}.
Arguments Present {A} a.

(** The body of an answer to [/auth/login] or [/auth/register], as far
    as [login] and [register] read it. When the hub sends them, [token]
    and [username] are strings and [userId] is a number. *)
Record Body := mkBody {
  b_token : Field string;
  b_userId : Field Z;
  b_username : Field string
}.

(** The body the hub sends for an accepted login. *)
Definition body_of (r : authService.AuthResponse) : Body :=
  mkBody (Present (authService.token r)) (Present (authService.userId r))
         (Present (authService.username r)).

(** [String(v)], which [localStorage.setItem] applies to the value it is
    given. *)
Definition stringOf (v : Field string) : string :=
  match v with
  | Missing => "undefined"
  | Null => "null"
  | Present s => s
  end.

(** What the promise of [login] rejects with: the error of the request,
    or a [TypeError] thrown while the body is read. *)
Inductive LoginError :=
| Rejected (error : api.AxiosError)
| TypeError (message : string).

Section WithBody.
(** How axios hands over a JSON body: the object [response.data] is
    ([None] when it is [null] or [undefined]), and the [message] field
    of an error body when there is one. *)
Variable authResponse : string → option Body.
Variable messageOf : string → option string.

(** The lines of [login] and [register] after the [await]: the
    destructuring and the three [localStorage.setItem] calls, of which
    the second needs [userId.toString()]. *)
Definition store (data : option Body) (b : Browser)
  : Completion LoginError Body * Browser :=
  match data with
  | None => (Throw (TypeError "Cannot destructure response.data"), b)
  | Some d =>
      let b1 := setItem "token" (stringOf (b_token d)) b in
      match b_userId d with
      | Present userId =>
          (Normal d,
           setItem "username" (stringOf (b_username d))
             (setItem "userId" (authService.toString userId) b1))
      | _ => (Throw (TypeError "Cannot read properties of undefined (reading 'toString')"), b1)
      end
  end.

(** [authService.login(username, password)], given what the server
    answers to the POST. *)
Definition login (reply : api.ServerReply) (b : Browser)
  : Completion LoginError Body * Browser :=
  match api.call reply b with
  | (Normal response, b') => store (authResponse (api.data response)) b'
  | (Throw error, b') => (Throw (Rejected error), b')
  end.

(** [authService.register(username, password)]. *)
Definition register (reply : api.ServerReply) (b : Browser)
  : Completion LoginError Body * Browser :=
  match api.call reply b with
  | (Normal response, b') => store (authResponse (api.data response)) b'
  | (Throw error, b') => (Throw (Rejected error), b')
  end.

(** The [useState] slots of the page. *)
Record Form := mkForm {
  username : string;
  password : string;
  error : string;
  loading : bool
}.

(** [err.response?.data?.message || 'Login failed. ...']; a [TypeError]
    has no [response]. *)
Definition errorMessage (err : LoginError) : string :=
  match err with
  | Rejected err =>
      match api.response err with
      | Some response =>
          match messageOf (api.data response) with
          | Some m => if String.eqb m "" then "Login failed. Please check your credentials." else m
          | None => "Login failed. Please check your credentials."
          end
      | None => "Login failed. Please check your credentials."
      end
  | TypeError _ => "Login failed. Please check your credentials."
  end.

(** [handleSubmit(e)]: the form and the browser afterwards; the
    router's [navigate('/chat')] is modelled as the location it sets. *)
Definition handleSubmit (reply : api.ServerReply) (f : Form) (b : Browser)
  : Form * Browser :=
  match login reply b with
  | (Normal _, b') =>
      (mkForm (username f) (password f) "" false, navigate "/chat" b')
  | (Throw err, b') =>
      (mkForm (username f) (password f) (errorMessage err) false, b')
  end.

End WithBody.
End Login.


(* ===================================================================== *)
(** * Properties *)
(* ===================================================================== *)

(** Membership in a list that is written out. *)
Ltac in_list :=
  solve [ repeat first [ by apply elem_of_cons; left | apply elem_of_cons; right ] ].

Ltac not_in_list :=
  repeat match goal with
         | Hin : _ ∈ _ :: _ |- _ => apply elem_of_cons in Hin as [Hin|Hin]; [discriminate Hin|]
         | Hin : _ ∈ [] |- _ => by apply elem_of_nil in Hin
         end.

(** ** Storage and the session store *)

Section SessionStore.
Import Storage authService.

Lemma truthy_spec v : truthy v = true ↔ ∃ s, v = Some s ∧ s ≠ "".
Proof.
  destruct v as [s|]; simpl.
  - rewrite negb_true_iff. split.
    + intros Hs. exists s. split; [done|]. intros ->. by rewrite String.eqb_refl in Hs.
    + intros (s' & [= <-] & Hne). by apply String.eqb_neq.
  - split; [done|]. by intros (? & ? & ?).
Qed.

Lemma getItem_setItem_ne k k' v b : k ≠ k' → getItem k' (setItem k v b) = getItem k' b.
Proof. intros. by apply lookup_insert_ne. Qed.

Lemma getItem_removeItem_eq k b : getItem k (removeItem k b) = None.
Proof. apply lookup_delete_eq. Qed.

Lemma getItem_removeItem_ne k k' b : k ≠ k' → getItem k' (removeItem k b) = getItem k' b.
Proof. intros. by apply lookup_delete_ne. Qed.

(** The three session keys are gone once they have been removed, in the
    order the code removes them. *)
Lemma session_keys_removed k b :
  k ∈ ["token"; "userId"; "username"] →
  getItem k (removeItem "username" (removeItem "userId" (removeItem "token" b))) = None.
Proof.
  rewrite !elem_of_cons, elem_of_nil.
  intros [->|[->|[->|[]]]].
  - rewrite !getItem_removeItem_ne by done. apply getItem_removeItem_eq.
  - rewrite getItem_removeItem_ne by done. apply getItem_removeItem_eq.
  - apply getItem_removeItem_eq.
Qed.

Lemma logout_getItem k b :
  k ∈ ["token"; "userId"; "username"] → getItem k (logout b) = None.
Proof. apply session_keys_removed. Qed.

(** C10: [isAuthenticated()] is true exactly when storage holds a
    non-empty [token] entry; writing or removing any other key, such as
    [userId] and [username], does not change its answer; and right after
    [logout()] it is false. *)
Theorem isAuthenticated_iff_token :
  (∀ b, isAuthenticated b = true ↔ ∃ t, getItem "token" b = Some t ∧ t ≠ "") ∧
  (∀ b k v, k ≠ "token" → isAuthenticated (setItem k v b) = isAuthenticated b) ∧
  (∀ b k, k ≠ "token" → isAuthenticated (removeItem k b) = isAuthenticated b) ∧
  (∀ b, isAuthenticated (logout b) = false).
Proof.
  repeat split.
  - by intros ?%truthy_spec.
  - by intros ?%truthy_spec.
  - intros b k v Hk. unfold isAuthenticated. by rewrite getItem_setItem_ne.
  - intros b k Hk. unfold isAuthenticated. by rewrite getItem_removeItem_ne.
  - intros b. unfold isAuthenticated.
    rewrite logout_getItem; [done|]. apply elem_of_cons. by left.
Qed.

Lemma isAuthenticated_iff_token_witness :
  isAuthenticated (setItem "username" "ann" (setItem "token" "t0" (mkBrowser ∅ "/chat")))
  = isAuthenticated (setItem "token" "t0" (mkBrowser ∅ "/chat")).
Proof.
  apply (proj1 (proj2 isAuthenticated_iff_token)
           (setItem "token" "t0" (mkBrowser ∅ "/chat")) "username" "ann").
  discriminate.
Defined.

End SessionStore.

(** ** The response interceptor *)

Section Interceptor.
Import Storage api.

Lemma settle_401 r : status r = 401 → settle (Reply r) = Throw (mkAxiosError (Some r)).
Proof. intros Hs. unfold settle. by rewrite Hs. Qed.

Lemma response_rejected_rejects error b : fst (response_rejected error b) = Throw error.
Proof. unfold response_rejected. by destruct (is_401 error). Qed.

(** C6: a REST call answered with status 401, made from any page and
    with any stored session, leaves none of the keys [token], [userId]
    and [username] in storage and sets the location to [/login]; the
    call itself is rejected with the error. *)
Theorem call_401_clears_session_and_redirects :
  ∀ (r : Response) (b : Browser),
    status r = 401 →
    let b' := snd (call (Reply r) b) in
    getItem "token" b' = None ∧
    getItem "userId" b' = None ∧
    getItem "username" b' = None ∧
    location_href b' = "/login" ∧
    fst (call (Reply r) b) = Throw (mkAxiosError (Some r)).
Proof.
  intros r b Hs. unfold call. rewrite (settle_401 r Hs).
  unfold response_rejected, is_401; simpl. rewrite Hs; simpl.
  repeat split; apply session_keys_removed; in_list.
Qed.

Lemma call_401_clears_session_and_redirects_witness :
  let b := mkBrowser {[ "token" := "t0"; "userId" := "7"; "username" := "ann" ]} "/chat" in
  let b' := snd (call (Reply (mkResponse 401 "")) b) in
  getItem "token" b' = None ∧
  getItem "userId" b' = None ∧
  getItem "username" b' = None ∧
  location_href b' = "/login" ∧
  fst (call (Reply (mkResponse 401 "")) b) = Throw (mkAxiosError (Some (mkResponse 401 ""))).
Proof.
  apply (call_401_clears_session_and_redirects (mkResponse 401 "")). reflexivity.
Defined.

End Interceptor.

(** ** The reconnect policy *)

Section Backoff.
Import ChatService.

Lemma nextRetryDelay_cases n :
  nextRetryDelayInMilliseconds (mkRetryContext n) ∈ [0; 2000; 10000; 30000].
Proof.
  unfold nextRetryDelayInMilliseconds; simpl.
  repeat case_match; in_list.
Qed.

(** C4: the delay before the first retry (no retry made yet) is 0, before
    the second 2000 ms, before the third 10000 ms, and before the fourth
    and every later retry 30000 ms; no delay exceeds 30000 ms. *)
Theorem nextRetryDelay_schedule :
  nextRetryDelayInMilliseconds (mkRetryContext 0) = 0 ∧
  nextRetryDelayInMilliseconds (mkRetryContext 1) = 2000 ∧
  nextRetryDelayInMilliseconds (mkRetryContext 2) = 10000 ∧
  (∀ n, 3 ≤ n → nextRetryDelayInMilliseconds (mkRetryContext n) = 30000) ∧
  (∀ ctx, 0 ≤ nextRetryDelayInMilliseconds ctx ≤ 30000).
Proof.
  repeat split; try reflexivity.
  - intros n Hn. unfold nextRetryDelayInMilliseconds; simpl.
    destruct (Z.eqb_spec n 0); [lia|].
    destruct (Z.eqb_spec n 1); [lia|].
    destruct (Z.eqb_spec n 2); [lia|]. done.
  - unfold nextRetryDelayInMilliseconds. repeat case_match; lia.
  - unfold nextRetryDelayInMilliseconds. repeat case_match; lia.
Qed.

Lemma nextRetryDelay_schedule_witness :
  nextRetryDelayInMilliseconds (mkRetryContext 7) = 30000.
Proof.
  apply (proj1 (proj2 (proj2 (proj2 nextRetryDelay_schedule))) 7). lia.
Defined.

End Backoff.

(** ** The connection state read *)

Section ConnectionState.
Import ChatService ChatServiceSpec.
Context {T : Type} `{HubConnection T}.

Lemma getConnectionState_no_connection (s : ChatService T) :
  connection s = None → getConnectionState s = "disconnected".
Proof. unfold getConnectionState. by intros ->. Qed.

Lemma getConnectionState_some (s : ChatService T) t :
  connection s = Some t →
  getConnectionState s =
    match hub_state t with
    | Connected => "connected"
    | Connecting => "connecting"
    | Reconnecting => "reconnecting"
    | Disconnected => "disconnected"
    | Disconnecting => "unknown"
    end.
Proof. unfold getConnectionState. intros ->. by destruct (hub_state t). Qed.

Lemma getConnectionState_range (s : ChatService T) :
  getConnectionState s ∈
    ["connecting"; "connected"; "reconnecting"; "disconnected"; "unknown"].
Proof.
  unfold getConnectionState.
  destruct (connection s) as [t|]; [destruct (hub_state t)|]; in_list.
Qed.

Lemma getConnectionState_unknown (s : ChatService T) :
  getConnectionState s = "unknown" ↔
  ∃ t, connection s = Some t ∧ hub_state t = Disconnecting.
Proof.
  unfold getConnectionState. split.
  - destruct (connection s) as [t|]; [|done].
    destruct (hub_state t) eqn:Hs; try done. intros _. by exists t.
  - intros (t & -> & ->). done.
Qed.

(** C3, as the code has it: [getConnectionState()] returns
    ['disconnected'] when there is no connection object; when there is
    one it returns the name of the transport state for the states
    connected, connecting, reconnecting and disconnected, and
    ['unknown'] for the remaining one (disconnecting), so ['unknown']
    is returned exactly in that case; it never returns ['error']. *)
Theorem getConnectionState_values :
  ∀ s : ChatService T,
    getConnectionState s ∈
      ["connecting"; "connected"; "reconnecting"; "disconnected"; "unknown"] ∧
    getConnectionState s ≠ "error" ∧
    (connection s = None → getConnectionState s = "disconnected") ∧
    (∀ t, connection s = Some t →
       getConnectionState s =
         match hub_state t with
         | Connected => "connected"
         | Connecting => "connecting"
         | Reconnecting => "reconnecting"
         | Disconnected => "disconnected"
         | Disconnecting => "unknown"
         end) ∧
    (getConnectionState s = "unknown" ↔
       ∃ t, connection s = Some t ∧ hub_state t = Disconnecting) ∧
    (getConnectionState s ∈ connection_states ↔
       ¬ ∃ t, connection s = Some t ∧ hub_state t = Disconnecting).
Proof.
  intros s. pose proof (getConnectionState_range s) as Hr.
  split; [done|]. split.
  { intros He. rewrite He in Hr. not_in_list. }
  split; [apply getConnectionState_no_connection|].
  split; [apply getConnectionState_some|].
  split; [apply getConnectionState_unknown|].
  rewrite <- getConnectionState_unknown. unfold connection_states.
  split.
  - intros Hin Hu. rewrite Hu in Hin. not_in_list.
  - intros Hu.
    repeat (apply elem_of_cons in Hr as [->|Hr]; [in_list|]).
    apply elem_of_cons in Hr as [Hr|Hr]; [done|]. by apply elem_of_nil in Hr.
Qed.

End ConnectionState.

Section ConnectionStateExamples.
Import ChatService ChatServiceSpec.

(** C3 as stated fails: with the transport in its disconnecting state
    the result is ['unknown'], which is not one of the five state
    names. *)
Lemma getConnectionState_unknown_counterexample :
  let s := set_connection (Some (mkScripted Disconnecting [])) new_ChatService in
  getConnectionState s = "unknown" ∧ getConnectionState s ∉ connection_states.
Proof.
  split; [reflexivity|]. simpl. unfold connection_states. intros ?. not_in_list.
Qed.

(** The four transport states that have a name, the fifth, and no
    connection at all. *)
Lemma getConnectionState_values_witness :
  let on (st : HubConnectionState) :=
    getConnectionState (set_connection (Some (mkScripted st [])) new_ChatService) in
  on Connected = "connected" ∧ on Connecting = "connecting" ∧
  on Reconnecting = "reconnecting" ∧ on Disconnected = "disconnected" ∧
  on Disconnecting = "unknown" ∧
  getConnectionState (new_ChatService (T := Scripted)) = "disconnected".
Proof.
  assert (Hon : ∀ st,
            getConnectionState (set_connection (Some (mkScripted st [])) new_ChatService) =
              match st with
              | Connected => "connected"
              | Connecting => "connecting"
              | Reconnecting => "reconnecting"
              | Disconnected => "disconnected"
              | Disconnecting => "unknown"
              end).
  { intros st.
    exact (proj1 (proj2 (proj2 (proj2 (getConnectionState_values
             (set_connection (Some (mkScripted st [])) new_ChatService)))))
             (mkScripted st []) eq_refl). }
  intros on.
  split; [exact (Hon Connected)|]. split; [exact (Hon Connecting)|].
  split; [exact (Hon Reconnecting)|]. split; [exact (Hon Disconnected)|].
  split; [exact (Hon Disconnecting)|].
  apply (proj1 (proj2 (proj2 (getConnectionState_values new_ChatService)))).
  reflexivity.
Defined.

End ConnectionStateExamples.

(** ** The user directory of the chat page *)

Section UserDirectory.
Import Chat.

Lemma strict_equals_true a b : strict_equals a b = true ↔ ∃ z, a = Num z ∧ b = Num z.
Proof.
  destruct a as [|x], b as [|y]; simpl; split; try done;
    try (by intros (? & ? & ?)).
  - intros ->%Z.eqb_eq. by exists y.
  - intros (z & [= ->] & [= ->]). apply Z.eqb_refl.
Qed.

(** C8: when the announced user's id equals ([===]) the session's own
    userId, [handleUserRegistered] leaves the page state, and so the
    user directory, unchanged: no entry is added. *)
Theorem handleUserRegistered_self :
  ∀ (currentUser : CurrentUser) (user : User) (st : State),
    strict_equals (Num (id user)) (userId currentUser) = true →
    handleUserRegistered currentUser (Some user) st = st ∧
    users (handleUserRegistered currentUser (Some user) st) = users st.
Proof.
  intros cu u st Heq. unfold handleUserRegistered. by rewrite Heq.
Qed.

Lemma handleUserRegistered_self_witness :
  let me := mkCurrentUser (Num 7) (Some "ann") (Some "t0") in
  let st := mkState [mkUser 3 "bob"] None "connected" in
  handleUserRegistered me (Some (mkUser 7 "ann")) st = st ∧
  users (handleUserRegistered me (Some (mkUser 7 "ann")) st) = users st.
Proof.
  apply handleUserRegistered_self. reflexivity.
Defined.

(** An announcement of another, unknown user does extend the
    directory, so the filter of C8 is not vacuous. *)
Lemma handleUserRegistered_other :
  users (handleUserRegistered (mkCurrentUser (Num 7) (Some "ann") (Some "t0"))
           (Some (mkUser 9 "cat")) (mkState [mkUser 3 "bob"] None "connected"))
  = [mkUser 3 "bob"; mkUser 9 "cat"].
Proof. reflexivity. Qed.

End UserDirectory.

(** ** The composer *)

Section Composer.
Import MessageInput.

Lemma trimStart_head (s : JsString) :
  trimStart s = [] ∨ ∃ c r, trimStart s = c :: r ∧ isWhiteSpace c = false.
Proof.
  induction s as [|c s IH]; simpl; [by left|].
  destruct (isWhiteSpace c) eqn:Hc; [done|]. right. by exists c, s.
Qed.

Lemma trimStart_nil (s : JsString) :
  trimStart s = [] ↔ whitespace_only s = true.
Proof.
  unfold whitespace_only. induction s as [|c s IH]; simpl; [done|].
  destruct (isWhiteSpace c); simpl; [done|]. split; discriminate.
Qed.

Lemma trimStart_app (l r : JsString) (c : N) :
  isWhiteSpace c = false →
  trimStart (l ++ c :: r) = trimStart l ++ c :: r.
Proof.
  intros Hc. induction l as [|x l IH]; simpl.
  - by rewrite Hc.
  - by destruct (isWhiteSpace x).
Qed.

(** The shape of [s.trim()]: empty, or beginning with the first code
    unit of [s] that is not white space. *)
Lemma trim_unfold (s : JsString) :
  trim s =
    match trimStart s with
    | [] => []
    | c :: r => c :: trimEnd r
    end.
Proof.
  unfold trim. destruct (trimStart_head s) as [->|(c & r & -> & Hc)]; [done|].
  unfold trimEnd. rewrite reverse_cons, (trimStart_app _ [] c Hc).
  by rewrite reverse_snoc.
Qed.

Lemma trim_nil (s : JsString) :
  trim s = [] ↔ whitespace_only s = true.
Proof.
  rewrite trim_unfold, <- trimStart_nil. by destruct (trimStart s).
Qed.

Lemma trim_not_whitespace_only (s : JsString) :
  trim s ≠ [] → whitespace_only (trim s) = false.
Proof.
  rewrite trim_unfold.
  destruct (trimStart_head s) as [->|(c & r & -> & Hc)]; [done|].
  intros _. unfold whitespace_only; simpl. by rewrite Hc.
Qed.

Lemma truthy_nonempty (s : JsString) : truthy s = true ↔ s ≠ [].
Proof. by destruct s. Qed.

(** C9: whatever string the composer holds, every call of
    [onSendMessage] made by [handleSend] happens with the trimmed string
    non-empty and the composer not disabled, and its argument is the
    trimmed string, which is neither empty nor white space only; under
    that condition exactly one call is made, otherwise none. *)
Theorem handleSend_calls :
  ∀ (message : JsString) (disabled : bool),
    (∀ v, v ∈ fst (handleSend message disabled) →
          trim message ≠ [] ∧ disabled = false ∧ v = trim message ∧
          v ≠ [] ∧ whitespace_only v = false) ∧
    (trim message ≠ [] ∧ disabled = false →
       handleSend message disabled = ([trim message], [])) ∧
    (trim message = [] ∨ disabled = true →
       handleSend message disabled = ([], message)).
Proof.
  intros message disabled. unfold handleSend.
  destruct (truthy (trim message)) eqn:Ht; destruct disabled; simpl.
  - split; [by intros v ?%elem_of_nil|]. split; [by intros [_ ?]|done].
  - apply truthy_nonempty in Ht. split.
    + intros v ->%list_elem_of_singleton.
      repeat split; auto using trim_not_whitespace_only.
    + split; [done|]. by intros [?|?].
  - split; [by intros v ?%elem_of_nil|]. split; [by intros [_ ?]|done].
  - split; [by intros v ?%elem_of_nil|]. split; [|done].
    intros [Hne _]. apply truthy_nonempty in Hne. congruence.
Qed.

(** The string " hi " (space, h, i, space). *)
Lemma handleSend_calls_witness :
  handleSend [32; 104; 105; 32]%N false = ([[104; 105]%N], []).
Proof.
  apply (proj1 (proj2 (handleSend_calls [32; 104; 105; 32]%N false))).
  split; [discriminate|reflexivity].
Defined.

End Composer.

(** ** The connection manager: single calls *)

Import ChatService ChatServiceSpec.

(** Unfolding of the methods down to functions on worlds. *)
Ltac js_unfold :=
  unfold run, exec, sendMessage, getConversation, disconnect,
    sendMessage_started, sendMessage_settled, disconnect_started,
    on_Error, connection_invoke, connection_start, connection_stop,
    invoke_call, start_call, stop_call, console, settled,
    try_catch, throw, gets, modify, emit, spawn,
    mbind, mret, Js_bind, Js_ret in *.

Ltac open_world w :=
  let conn := fresh "conn" in
  let es := fresh "es" in
  let tasks := fresh "tasks" in
  destruct w as [[conn ? ? ? ? ? ?] es tasks]; simpl in *.

Section ChatServiceCalls.
Context {T : Type} `{HubConnection T}.

(** The entry [sendMessage] queues for its arguments. *)
Lemma sendMessage_offline r c (w : World T) :
  is_connected (connection (this w)) = false →
  sendMessage r c w =
    (Normal tt,
     mkWorld (set_messageQueue (messageQueue (this w) ++ [mkQueueEntry r c]) (this w))
             (effects w ++ [Console Log "Message queued (offline):"])
             (pending w)).
Proof. intros Hc. js_unfold. simpl. by rewrite Hc. Qed.

Lemma sendMessage_resolved r c (w : World T) t t' :
  connection (this w) = Some t → hub_state t = Connected →
  hub_invoke (SendMessage r c) t = (t', None) →
  sendMessage r c w =
    (Normal tt,
     mkWorld (set_connection (Some t') (this w))
             (effects w ++ [Invoked (SendMessage r c) None])
             (pending w)).
Proof.
  intros Hc Hs Hi. open_world w. subst conn. js_unfold. simpl.
  rewrite Hs, bool_decide_eq_true_2 by done. simpl. by rewrite Hi.
Qed.

Lemma sendMessage_rejected r c (w : World T) t t' e :
  connection (this w) = Some t → hub_state t = Connected →
  hub_invoke (SendMessage r c) t = (t', Some e) →
  sendMessage r c w =
    (Normal tt,
     mkWorld (set_messageQueue (messageQueue (this w) ++ [mkQueueEntry r c])
                (set_connection (Some t') (this w)))
             (effects w ++ [Invoked (SendMessage r c) (Some e);
                            Console Err "Failed to send message, queued for retry:"])
             (pending w)).
Proof.
  intros Hc Hs Hi. open_world w. subst conn. js_unfold. simpl.
  rewrite Hs, bool_decide_eq_true_2 by done. simpl. rewrite Hi. simpl.
  by rewrite <- app_assoc.
Qed.

Lemma is_connected_true (c : option T) :
  is_connected c = true ↔ ∃ t, c = Some t ∧ hub_state t = Connected.
Proof.
  destruct c as [t|]; simpl.
  - rewrite bool_decide_eq_true. split; [intros ?; by exists t|].
    by intros (? & [= <-] & ?).
  - split; [done|]. by intros (? & ? & ?).
Qed.

(** What one [sendMessage] does, whatever the transport does: it ends
    normally, leaves the listener lists and the pending tasks alone, and
    either delivers the entry or appends it to the queue. *)
Lemma sendMessage_outcome r c (w : World T) :
  ∃ w' news requeued,
    sendMessage r c w = (Normal tt, w') ∧
    effects w' = effects w ++ news ∧
    messageQueue (this w') = messageQueue (this w) ++ requeued ∧
    (∀ k, listeners k (this w') = listeners k (this w)) ∧
    pending w' = pending w ∧
    ((delivered news = [mkQueueEntry r c] ∧ requeued = [] ∧ rejected news = [] ∧
      invocations news = [(SendMessage r c, None)]) ∨
     (delivered news = [] ∧ requeued = [mkQueueEntry r c] ∧
      rejected news `sublist_of` requeued)).
Proof.
  destruct (is_connected (connection (this w))) eqn:Hc.
  - apply is_connected_true in Hc as (t & Hc & Hs).
    destruct (hub_invoke (SendMessage r c) t) as [t' [e|]] eqn:Hi.
    + eexists _, _, [mkQueueEntry r c].
      split; [by apply (sendMessage_rejected r c w t t' e)|]. simpl.
      split; [done|]. split; [done|]. split; [by intros []|]. split; [done|]. by right.
    + eexists _, _, [].
      split; [by apply (sendMessage_resolved r c w t t')|]. simpl.
      split; [done|]. split; [by rewrite app_nil_r|]. split; [by intros []|].
      split; [done|]. by left.
  - eexists _, _, [mkQueueEntry r c].
    split; [by apply sendMessage_offline|]. simpl.
    split; [done|]. split; [done|]. split; [by intros []|]. split; [done|]. right.
    split; [done|]. split; [done|]. apply sublist_nil_l.
Qed.

Lemma getConversation_unfold otherUserId (w : World T) :
  getConversation otherUserId w =
    match connection (this w) with
    | Some t =>
        if bool_decide (hub_state t = Connected) then
          match hub_invoke (GetConversation otherUserId) t with
          | (t', None) =>
              (Normal tt,
               mkWorld (set_connection (Some t') (this w))
                 (effects w ++ [Invoked (GetConversation otherUserId) None])
                 (pending w))
          | (t', Some e) =>
              (Normal tt,
               mkWorld (set_connection (Some t') (this w))
                 (effects w ++ [Invoked (GetConversation otherUserId) (Some e);
                                Console Err "Failed to get conversation:"])
                 (pending w))
          end
        else (Normal tt,
              mkWorld (this w)
                (effects w ++ [Console Warn "Cannot get conversation: not connected"])
                (pending w))
    | None =>
        (Normal tt,
         mkWorld (this w)
           (effects w ++ [Console Warn "Cannot get conversation: not connected"])
           (pending w))
    end.
Proof.
  open_world w. js_unfold. simpl. destruct conn as [t|]; simpl; [|done].
  destruct (bool_decide (hub_state t = Connected)); simpl; [|done].
  destruct (hub_invoke (GetConversation otherUserId) t) as [t' [e|]]; simpl; [|done].
  by rewrite <- app_assoc.
Qed.


End ChatServiceCalls.

(** ** Properties a method keeps *)

Section Invariants.
Context {T : Type} `{HubConnection T} `{Listeners T}.

Implicit Types (I : World T → Prop) (w : World T).

Lemma invariant_ret I {A} (a : A) : invariant I (mret a : Js T A).
Proof. by intros w. Qed.

Lemma invariant_throw I {A} e : invariant I (throw e : Js T A).
Proof. by intros w. Qed.

Lemma invariant_gets I {A} (f : ChatService T → A) : invariant I (gets f).
Proof. by intros w. Qed.

Lemma invariant_bind I {A B} (m : Js T A) (k : A → Js T B) :
  invariant I m → (∀ a, invariant I (k a)) → invariant I (m ≫= k).
Proof.
  intros Hm Hk w Hw. specialize (Hm w Hw). unfold exec, mbind, Js_bind in *.
  destruct (m w) as [[a|e] w']; simpl in *; [|done]. by apply Hk.
Qed.

(** The continuation of a read may use what holds of the world that was
    read. *)
Lemma invariant_bind_gets I {A B} (f : ChatService T → A) (k : A → Js T B) :
  (∀ w, I w → I (exec (k (f (this w))) w)) → invariant I (gets f ≫= k).
Proof. intros Hk w Hw. by apply Hk. Qed.

Lemma invariant_try_catch I {A} (m : Js T A) (h : Error → Js T A) :
  invariant I m → (∀ e, invariant I (h e)) → invariant I (try_catch m h).
Proof.
  intros Hm Hh w Hw. specialize (Hm w Hw). unfold exec, try_catch in *.
  destruct (m w) as [[a|e] w']; simpl in *; [done|]. by apply Hh.
Qed.

Lemma invariant_forEach I {A} (l : list A) (f : A → Js T unit) :
  (∀ x, x ∈ l → invariant I (f x)) → invariant I (forEach l f).
Proof.
  induction l as [|x l IH]; intros Hf; simpl; [apply invariant_ret|].
  apply invariant_bind; [apply Hf; by left|].
  intros _. apply IH. intros y Hy. apply Hf. by right.
Qed.

Lemma invariant_modify I (f : ChatService T → ChatService T) :
  (∀ w, I w → I (mkWorld (f (this w)) (effects w) (pending w))) →
  invariant I (modify f).
Proof. intros Hf w Hw. by apply Hf. Qed.

Lemma invariant_emit I (e : Effect) :
  (∀ w, I w → I (mkWorld (this w) (effects w ++ [e]) (pending w))) →
  invariant I (emit e).
Proof. intros He w Hw. by apply He. Qed.

Lemma invariant_spawn I (task : Task) :
  (∀ w, I w → I (mkWorld (this w) (effects w) (pending w ++ [task]))) →
  invariant I (spawn task).
Proof. intros Ht w Hw. by apply Ht. Qed.

Lemma invariant_subscribe I k cb :
  (∀ w, I w → I (mkWorld (set_listeners k (listeners k (this w) ++ [cb]) (this w))
                         (effects w) (pending w))) →
  invariant I (subscribe k cb).
Proof. intros Hs w Hw. specialize (Hs w Hw). by destruct k. Qed.

Lemma invariant_unsubscribe I k cb :
  (∀ w, I w → I (mkWorld (set_listeners k (filter (λ c, c ≠ cb) (listeners k (this w)))
                            (this w))
                         (effects w) (pending w))) →
  invariant I (unsubscribe k cb).
Proof. intros Hs w Hw. specialize (Hs w Hw). by destruct k. Qed.

(** A call of a listener keeps what the record of the call and the
    calls the listener makes into the service keep. *)
Lemma invariant_call_listener I cb v :
  invariant I (emit (Called cb v)) →
  (∀ w call, call ∈ does (listener_code cb v w) → invariant I (run_call call)) →
  invariant I (call_listener cb v).
Proof.
  intros He Hc w Hw. unfold exec, call_listener.
  apply (invariant_bind I (emit (Called cb v))
           (λ _, forEach (does (listener_code cb v w)) run_call;;
                 settled (raises (listener_code cb v w)))); [done| |done].
  intros _. apply invariant_bind.
  - apply invariant_forEach. intros call Hcall. by apply (Hc w).
  - intros _. unfold settled. destruct (raises _); [apply invariant_throw|apply invariant_ret].
Qed.

Lemma invariant_flush_loop I (queue : list QueueEntry) :
  (∀ e, invariant I (sendMessage_started (receiverId e) (content e))) →
  (∀ e r rest, invariant I (spawn (FlushTask e r rest))) →
  invariant I (flush_loop queue).
Proof.
  intros Hsend Hspawn. induction queue as [|e rest IH]; simpl; [apply invariant_ret|].
  apply invariant_bind; [apply Hsend|]. intros [r|]; [apply Hspawn|apply IH].
Qed.

Lemma invariant_resume_at I n :
  (∀ w, I w → I (mkWorld (this w) (effects w) (delete n (pending w)))) →
  (∀ task, invariant I (resume task)) →
  invariant I (resume_at n).
Proof.
  intros Hdel Hres w Hw. unfold exec, resume_at.
  destruct (pending w !! n) as [task|]; [|done]. apply Hres. by apply Hdel.
Qed.

End Invariants.

(** Decomposition of a method into the steps that change the world;
    what is left to show is that each of them keeps the property. The
    tactic [special] is tried first at every step. *)
Ltac invariant_split_by special :=
  repeat first
    [ special
    | apply invariant_ret
    | apply invariant_throw
    | apply invariant_gets
    | apply invariant_subscribe
    | apply invariant_unsubscribe
    | apply invariant_modify
    | apply invariant_emit
    | apply invariant_spawn
    | apply invariant_forEach; intros ? ?
    | apply invariant_call_listener; [|intros ? ? ?]
    | apply invariant_flush_loop; [intros ?|intros ? ? ?]
    | apply invariant_resume_at; [|intros ?]
    | apply invariant_bind; [|intros ?]
    | apply invariant_try_catch; [|intros ?]
    | match goal with
      | |- invariant _ (match ?x with _ => _ end) => destruct x
      end
    | progress unfold connect, disconnect, sendMessage, getConversation,
        flushMessageQueue, flushMessageQueue_started, disconnect_started,
        sendMessage_started, sendMessage_settled, resume,
        onreconnecting, onreconnected, onclose, on_Error,
        notifyConnectionState, on_ReceiveMessage, on_MessageSent,
        on_ConversationHistory, on_UserRegistered,
        connection_start, connection_stop, connection_invoke,
        start_call, stop_call, invoke_call, console, settled, run_call ].

Ltac invariant_split := invariant_split_by fail.

(** ** Listener lists and fan-outs *)

Section FanOut.
Context {T : Type} `{HubConnection T} `{Listeners T}.

Implicit Types (w : World T) (s : ChatService T) (k : EventKind) (cb : Callback).

Lemma listeners_set_listeners k k' l s :
  listeners k' (set_listeners k l s) = if decide (k = k') then l else listeners k' s.
Proof. by destruct k, k'. Qed.

Lemma listeners_set_connection k c s :
  listeners k (set_connection c s) = listeners k s.
Proof. by destruct k. Qed.

Lemma listeners_set_messageQueue k q s :
  listeners k (set_messageQueue q s) = listeners k s.
Proof. by destruct k. Qed.

Lemma messageQueue_set_listeners k l s :
  messageQueue (set_listeners k l s) = messageQueue s.
Proof. by destruct k. Qed.


Lemma subscribe_unfold k cb w :
  subscribe k cb w =
    (Normal (unsubscribe k cb),
     mkWorld (set_listeners k (listeners k (this w) ++ [cb]) (this w))
             (effects w) (pending w)).
Proof. by destruct k. Qed.

Lemma unsubscribe_unfold k cb w :
  unsubscribe k cb w =
    (Normal tt,
     mkWorld (set_listeners k (filter (λ c, c ≠ cb) (listeners k (this w))) (this w))
             (effects w) (pending w)).
Proof. by destruct k. Qed.









Lemma calls_app (es1 es2 : list Effect) :
  calls (es1 ++ es2) = calls es1 ++ calls es2.
Proof. apply omap_app. Qed.



End FanOut.

(** ** The offline queue and its flush *)

Section OfflineQueue.
Context {T : Type} `{HubConnection T}.

Implicit Types (w : World T) (q : list QueueEntry).

(** The body of the loop of [flushMessageQueue]. *)
#[local] Abbreviation resend := (λ e : QueueEntry, sendMessage (receiverId e) (content e)).

Lemma forEach_cons {A} (x : A) (l : list A) (f : A → Js T unit) w :
  forEach (x :: l) f w =
    match f x w with
    | (Normal _, w1) => forEach l f w1
    | (Throw e, w1) => (Throw e, w1)
    end.
Proof. done. Qed.

Lemma delivered_app (es1 es2 : list Effect) :
  delivered (es1 ++ es2) = delivered es1 ++ delivered es2.
Proof. apply omap_app. Qed.

Lemma rejected_app (es1 es2 : list Effect) :
  rejected (es1 ++ es2) = rejected es1 ++ rejected es2.
Proof. apply omap_app. Qed.

Lemma invocations_app (es1 es2 : list Effect) :
  invocations (es1 ++ es2) = invocations es1 ++ invocations es2.
Proof. apply omap_app. Qed.

Lemma invocations_console (es : list Effect) level text :
  invocations (es ++ [Console level text]) = invocations es.
Proof. rewrite invocations_app. apply app_nil_r. Qed.

(** The resend loop over a snapshot [q]: it ends normally; every entry
    of [q] is delivered or appended to the queue, once, and both the
    delivered and the requeued entries keep the order of [q]. *)
Lemma resend_loop q :
  ∀ w, ∃ w' news requeued,
    forEach q resend w = (Normal tt, w') ∧
    effects w' = effects w ++ news ∧
    messageQueue (this w') = messageQueue (this w) ++ requeued ∧
    (∀ k, listeners k (this w') = listeners k (this w)) ∧
    pending w' = pending w ∧
    q ≡ₚ delivered news ++ requeued ∧
    delivered news `sublist_of` q ∧
    requeued `sublist_of` q ∧
    rejected news `sublist_of` requeued.
Proof.
  induction q as [|e q IH]; intros w.
  - exists w, [], []. simpl. rewrite !app_nil_r.
    repeat split; try done; apply sublist_nil_l.
  - destruct (sendMessage_outcome (receiverId e) (content e) w)
      as (w1 & news1 & rq1 & Hsend & Hes1 & Hq1 & Hl1 & Hp1 & Hcase).
    destruct (IH w1)
      as (w' & news2 & rq2 & Hloop & Hes2 & Hq2 & Hl2 & Hp2 & Hperm & Hd & Hr & Hrej).
    exists w', (news1 ++ news2), (rq1 ++ rq2).
    rewrite forEach_cons, Hsend, Hloop, Hes2, Hes1, Hq2, Hq1, <- !app_assoc.
    rewrite delivered_app, rejected_app.
    split; [done|]. split; [done|]. split; [done|].
    split; [intros k; by rewrite Hl2, Hl1|]. split; [by rewrite Hp2|].
    assert (He : mkQueueEntry (receiverId e) (content e) = e) by by destruct e.
    rewrite He in Hcase.
    destruct Hcase as [(-> & -> & -> & _)|(-> & -> & Hrej1)]; simpl.
    + split; [by apply perm_skip|]. split; [by apply sublist_skip|].
      split; [by apply sublist_cons|done].
    + split; [rewrite Hperm; apply Permutation_middle|].
      split; [by apply sublist_cons|]. split; [by apply sublist_skip|].
      by apply (sublist_app (rejected news1) [e] (rejected news2) rq2).
Qed.

Lemma connected_transport_Some (c : option T) t :
  connected_transport c = Some t → c = Some t ∧ hub_state t = Connected.
Proof.
  destruct c as [t0|]; simpl; [|done].
  case_bool_decide; [|done]. by intros [= <-].
Qed.

Lemma connected_transport_None (c : option T) :
  connected_transport c = None → is_connected c = false.
Proof.
  destruct c as [t0|]; simpl; [|done]. by case_bool_decide.
Qed.

(** The resend loop does what the specification says of it: the
    entries are resent in order, each on the connection the one before
    left; those whose request did not resolve go to the end of the
    queue, in order. *)
Lemma resend_loop_resends q :
  ∀ w, ∃ w',
    forEach q resend w = (Normal tt, w') ∧
    messageQueue (this w') =
      messageQueue (this w) ++ requeued (resends (connection (this w)) q).1 ∧
    invocations (effects w') =
      invocations (effects w) ++ requests (resends (connection (this w)) q).1 ∧
    connection (this w') = (resends (connection (this w)) q).2 ∧
    map fst (resends (connection (this w)) q).1 = q.
Proof.
  induction q as [|e q IH]; intros w.
  - exists w. simpl. by rewrite !app_nil_r.
  - rewrite forEach_cons. cbn [resends].
    destruct (connected_transport (connection (this w))) as [t|] eqn:Hct.
    + apply connected_transport_Some in Hct as [Hc Hs].
      destruct (hub_invoke (SendMessage (receiverId e) (content e)) t) as [t' r] eqn:Hi.
      assert (Hsend : ∃ w1, sendMessage (receiverId e) (content e) w = (Normal tt, w1) ∧
                connection (this w1) = Some t' ∧
                messageQueue (this w1) =
                  messageQueue (this w) ++ (if r is None then [] else [e]) ∧
                invocations (effects w1) =
                  invocations (effects w) ++ [(SendMessage (receiverId e) (content e), r)]).
      { destruct r as [err|].
        - eexists. split; [by apply (sendMessage_rejected _ _ w t t' err)|]. simpl.
          rewrite invocations_app. by destruct e.
        - eexists. split; [by apply (sendMessage_resolved _ _ w t t')|]. simpl.
          by rewrite invocations_app, app_nil_r. }
      destruct Hsend as (w1 & -> & Hc1 & Hq1 & Hi1).
      destruct (IH w1) as (w' & -> & Hq' & Hi' & Hc' & Hfst). rewrite Hc1 in *.
      destruct (resends (Some t') q) as [rs c'] eqn:Hrs. simpl in *.
      exists w'. rewrite Hq', Hi', Hq1, Hi1, <- !app_assoc, Hfst.
      split; [done|]. split; [by destruct r|]. by destruct r.
    + apply connected_transport_None in Hct.
      rewrite (sendMessage_offline _ _ w Hct).
      match goal with |- context [forEach q _ ?w1] =>
        destruct (IH w1) as (w' & -> & Hq' & Hi' & Hc' & Hfst)
      end.
      simpl in *.
      destruct (resends (connection (this w)) q) as [rs c'] eqn:Hrs. simpl in *.
      exists w'. rewrite Hq', Hi', invocations_console, <- !app_assoc, Hfst.
      split; [done|]. split; [by destruct e|]. done.
Qed.

(** The resend loop while the service is not connected: every entry
    goes to the end of the queue and nothing else happens. *)
Lemma resend_loop_offline q :
  ∀ w, is_connected (connection (this w)) = false →
       messageQueue (this (exec (forEach q resend) w)) = messageQueue (this w) ++ q ∧
       invocations (effects (exec (forEach q resend) w)) = invocations (effects w) ∧
       connection (this (exec (forEach q resend) w)) = connection (this w) ∧
       pending (exec (forEach q resend) w) = pending w.
Proof.
  induction q as [|e q IH]; intros w Hoff.
  - simpl. by rewrite app_nil_r.
  - unfold exec in *. rewrite forEach_cons, (sendMessage_offline _ _ w Hoff).
    match goal with |- context [forEach q _ ?w0] =>
      destruct (IH w0 Hoff) as (Hq & Hi & Hc & Hp)
    end.
    rewrite Hq, Hi, Hc, Hp. simpl. rewrite invocations_console, <- app_assoc.
    by destruct e.
Qed.

Lemma flushMessageQueue_unfold w :
  flushMessageQueue w =
    match messageQueue (this w) with
    | [] => (Normal tt, w)
    | _ :: _ =>
        forEach (messageQueue (this w)) resend
          (mkWorld (set_messageQueue [] (this w))
             (effects w ++
                [Console Log ("Sending " +:+ pretty (length (messageQueue (this w)))
                              +:+ " queued messages...")])
             (pending w))
    end.
Proof.
  unfold flushMessageQueue. js_unfold. simpl.
  by destruct (messageQueue (this w)).
Qed.

(** C5: [flushMessageQueue] ends normally. It takes the queue as a
    snapshot, empties it, and passes the entries of the snapshot to
    [sendMessage] one after the other, in their order. So the entries
    are resent each on the connection as the resend before left it: a
    remote [SendMessage] call is made for exactly the entries whose turn
    finds the service connected, in that order, and the queue afterwards
    holds exactly the entries whose request did not resolve (rejected,
    or not sent), in that order. The entries delivered together with
    the entries in the queue afterwards are the entries queued before,
    each once: no message is lost. On an empty queue the flush changes
    nothing and makes no remote call. *)
Theorem flushMessageQueue_loses_nothing :
  (∀ w,
     messageQueue (this w) ≠ [] →
     flushMessageQueue w =
       forEach (messageQueue (this w)) (λ e, sendMessage (receiverId e) (content e))
         (mkWorld (set_messageQueue [] (this w))
            (effects w ++
               [Console Log ("Sending " +:+ pretty (length (messageQueue (this w)))
                             +:+ " queued messages...")])
            (pending w))) ∧
  (∀ w,
     let q := messageQueue (this w) in
     let resent := (resends (connection (this w)) q).1 in
     let w' := exec flushMessageQueue w in
     run flushMessageQueue w = Normal tt ∧
     map fst resent = q ∧
     messageQueue (this w') = requeued resent ∧
     invocations (effects w') = invocations (effects w) ++ requests resent ∧
     connection (this w') = (resends (connection (this w)) q).2 ∧
     (∀ k, listeners k (this w') = listeners k (this w)) ∧
     pending w' = pending w) ∧
  (∀ w, ∃ news,
     effects (exec flushMessageQueue w) = effects w ++ news ∧
     messageQueue (this w) ≡ₚ
       delivered news ++ messageQueue (this (exec flushMessageQueue w)) ∧
     delivered news `sublist_of` messageQueue (this w) ∧
     messageQueue (this (exec flushMessageQueue w)) `sublist_of` messageQueue (this w) ∧
     rejected news `sublist_of` messageQueue (this (exec flushMessageQueue w))) ∧
  (∀ w, messageQueue (this w) = [] → flushMessageQueue w = (Normal tt, w)).
Proof.
  split.
  { intros w Hq. rewrite flushMessageQueue_unfold. by destruct (messageQueue (this w)). }
  split; [|split]; intros w; [| |intros Hq; by rewrite flushMessageQueue_unfold, Hq].
  - simpl. unfold run, exec. rewrite flushMessageQueue_unfold.
    destruct (messageQueue (this w)) as [|e q] eqn:Hq.
    { simpl. rewrite app_nil_r. by repeat split. }
    match goal with |- context [forEach _ _ ?w0] =>
      destruct (resend_loop_resends (e :: q) w0) as (w' & Hloop & Hq' & Hi' & Hc' & Hfst);
      destruct (resend_loop (e :: q) w0) as (w'' & ? & ? & Hloop' & _ & _ & Hl & Hp & _)
    end.
    rewrite Hloop in Hloop' |- *. injection Hloop' as <-.
    cbn [this effects pending set_messageQueue connection messageQueue] in *.
    rewrite invocations_console in Hi'.
    split; [done|]. split; [done|]. split; [done|]. split; [done|]. split; [done|].
    split; [|done]. intros k. rewrite Hl. apply listeners_set_messageQueue.
  - unfold exec. rewrite flushMessageQueue_unfold.
    destruct (messageQueue (this w)) as [|e q] eqn:Hq.
    + exists []. simpl. rewrite app_nil_r, Hq. repeat split; try done; apply sublist_nil_l.
    + match goal with |- context [forEach _ _ ?w0] =>
        destruct (resend_loop (e :: q) w0)
          as (w' & news & rq & Hloop & Hes & Hq' & _ & _ & Hperm & Hd & Hr & Hrej)
      end.
      simpl in Hes, Hq'. rewrite Hloop. simpl. rewrite Hes, Hq', <- app_assoc.
      eexists. split; [done|].
      rewrite delivered_app, rejected_app. simpl.
      repeat split; done.
Qed.

Lemma offline_sends_queue w sends w' :
  offline_sends w sends w' →
  messageQueue (this w') = messageQueue (this w) ++ map entry_of sends ∧
  invocations (effects w') = invocations (effects w) ∧
  (∀ k, listeners k (this w') = listeners k (this w)).
Proof.
  induction 1 as [w|w r c sends w' Hoff _ IH|w c' sends w' _ IH].
  - simpl. by rewrite app_nil_r.
  - destruct IH as (Hq & Hi & Hl). unfold exec in *.
    rewrite (sendMessage_offline r c w Hoff) in Hq, Hi, Hl. simpl in *.
    rewrite Hq, Hi, invocations_app, <- app_assoc. simpl.
    split; [done|]. split; [by rewrite app_nil_r|].
    intros k. rewrite Hl. apply listeners_set_messageQueue.
  - destruct IH as (Hq & Hi & Hl). split; [|split]; [done..|].
    intros k. rewrite Hl. apply listeners_set_connection.
Qed.

(** A resend loop on a transport that is connected and resolves every
    call: nothing is queued again, and the remote calls are those of the
    snapshot, in order. *)
Lemma resend_loop_all_succeed q :
  ∀ w t, connection (this w) = Some t → all_resends_succeed t q →
    ∃ w', forEach q resend w = (Normal tt, w') ∧
          messageQueue (this w') = messageQueue (this w) ∧
          effects w' = effects w ++
            map (λ e, Invoked (SendMessage (receiverId e) (content e)) None) q.
Proof.
  induction q as [|e q IH]; intros w t Hc Hall.
  - exists w. simpl. by rewrite app_nil_r.
  - destruct Hall as (Hs & Hok & Hall).
    destruct (hub_invoke (SendMessage (receiverId e) (content e)) t) as [t' r] eqn:Hi.
    simpl in Hok, Hall. subst r.
    rewrite forEach_cons,
      (sendMessage_resolved (receiverId e) (content e) w t t' Hc Hs Hi).
    destruct (IH (mkWorld (set_connection (Some t') (this w))
                    (effects w ++ [Invoked (SendMessage (receiverId e) (content e)) None])
                    (pending w))
                t' eq_refl Hall) as (w' & -> & Hq & Hes).
    exists w'. split; [done|]. split; [done|].
    rewrite Hes. simpl. by rewrite <- app_assoc.
Qed.

Lemma invocations_resends q :
  invocations (map (λ e, Invoked (SendMessage (receiverId e) (content e)) None) q)
  = map resend_of q.
Proof. induction q as [|e q IH]; simpl; [done|]. by rewrite IH. Qed.

(** C1: starting from an empty queue, [N] calls of [sendMessage] made
    while the service is not connected leave exactly the [N] entries
    [{receiverId, content}] in the queue, in submission order, and make
    no remote call; if the transport is then connected and every resend
    resolves, a flush ends with the queue empty after exactly [N] remote
    [SendMessage] calls, in that same order. *)
Theorem offline_sends_then_flush :
  ∀ w sends w1,
    messageQueue (this w) = [] →
    offline_sends w sends w1 →
    messageQueue (this w1) = map entry_of sends ∧
    length (messageQueue (this w1)) = length sends ∧
    invocations (effects w1) = invocations (effects w) ∧
    ∀ t, all_resends_succeed t (map entry_of sends) →
      let w2 := transport_becomes (Some t) w1 in
      run flushMessageQueue w2 = Normal tt ∧
      messageQueue (this (exec flushMessageQueue w2)) = [] ∧
      invocations (effects (exec flushMessageQueue w2)) =
        invocations (effects w1) ++ map resend_of (map entry_of sends).
Proof.
  intros w sends w1 Hempty Hoff.
  destruct (offline_sends_queue w sends w1 Hoff) as (Hq & Hi & _).
  rewrite Hempty in Hq. simpl in Hq.
  split; [done|]. split; [by rewrite Hq, length_map|]. split; [done|].
  intros t Hall w2. unfold run, exec. rewrite flushMessageQueue_unfold.
  assert (Hq2 : messageQueue (this w2) = map entry_of sends) by done.
  rewrite Hq2. destruct (map entry_of sends) as [|e q] eqn:Hsends.
  - subst w2. simpl. by rewrite app_nil_r.
  - match goal with |- context [forEach _ _ ?w0] =>
      destruct (resend_loop_all_succeed (e :: q) w0 t eq_refl Hall)
        as (w' & -> & Hq' & Hes)
    end.
    simpl fst; simpl snd. rewrite Hq', Hes.
    split; [done|]. split; [done|].
    rewrite !invocations_app, invocations_resends. cbn [effects].
    by rewrite invocations_console.
Qed.

End OfflineQueue.

(** ** Connecting and disconnecting *)

Section ConnectDisconnect.
Context {T : Type} `{HubConnection T} `{Listeners T}.

Implicit Types (w : World T).

Lemma disconnect_unfold w :
  disconnect w =
    match connection (this w) with
    | None => (Normal tt, w)
    | Some t =>
        match hub_stop t with
        | (t', None) =>
            (Normal tt,
             mkWorld (set_connection None (this w)) (effects w ++ [Stopped None]) (pending w))
        | (t', Some e) =>
            (Throw e,
             mkWorld (set_connection (Some t') (this w)) (effects w ++ [Stopped (Some e)])
                     (pending w))
        end
    end.
Proof.
  open_world w. js_unfold. simpl. destruct conn as [t|]; simpl; [|done].
  by destruct (hub_stop t) as [t' [e|]].
Qed.




(** [connect] is [disconnect], if there is a connection, and then the
    [try] block on the connection that was built. *)
Lemma connect_unfold token w :
  connect token w =
    match (if connection (this w) is Some _ then disconnect else mret tt) w with
    | (Normal _, w0) =>
        try_catch
          (connection_start;;
           console Log "SignalR connected";;
           notifyConnectionState "connected")
          (λ error,
            console Err "SignalR connection error:";;
            notifyConnectionState "error";;
            throw error)
          (mkWorld (set_connection (Some (hub_build token)) (this w0))
                   (effects w0) (pending w0))
    | (Throw e, w0) => (Throw e, w0)
    end.
Proof.
  unfold connect. unfold mbind at 1 2 3, Js_bind at 1 2 3, gets at 1, modify at 1.
  cbn -[disconnect try_catch].
  by destruct ((if connection (this w) is Some _ then disconnect else mret tt) w)
    as [[[]|e] w0].
Qed.


Lemma connect_after_disconnect token w t :
  connection (this w) = Some t →
  connect token w =
    match disconnect w with
    | (Normal _, w0) => connect token w0
    | (Throw e, w0) => (Throw e, w0)
    end.
Proof.
  intros Hc. rewrite connect_unfold, Hc, disconnect_unfold, Hc.
  destruct (hub_stop t) as [t' [e|]]; [done|].
  by rewrite connect_unfold.
Qed.


(** If the old connection cannot be stopped, [connect] ends there. *)
Lemma connect_stop_rejected token w e :
  stop_rejects w e →
  ∃ t, connection (this w) = Some t ∧
       connect token w =
         (Throw e,
          mkWorld (set_connection (Some (fst (hub_stop t))) (this w))
                  (effects w ++ [Stopped (Some e)]) (pending w)).
Proof.
  intros (t & Hc & Hr). exists t. split; [done|].
  rewrite (connect_after_disconnect token w t Hc), disconnect_unfold, Hc.
  destruct (hub_stop t) as [t' r]. simpl in Hr. by subst r.
Qed.



Lemma sendMessage_normal r c w : run (sendMessage r c) w = Normal tt.
Proof.
  destruct (sendMessage_outcome r c w) as (w' & ? & ? & Hsend & _).
  unfold run. by rewrite Hsend.
Qed.



End ConnectDisconnect.

(** ** Listeners *)

Section Listeners.
Context {T : Type} `{HubConnection T} `{Listeners T}.

Implicit Types (w : World T) (s : ChatService T) (k : EventKind) (cb : Callback).















End Listeners.

(** ** The connection manager on a scripted transport *)

Section Scenarios.



(** Three sends while not connected, the transport changing between
    them, then the transport connects and the queue is flushed: the
    three requests go out in the order of submission. *)
Lemma offline_sends_then_flush_witness :
  let sends := [(5, "hi"); (6, "how are you"); (5, "bye")] in
  let w1 := exec (sendMessage 5 "bye")
              (transport_becomes (Some (mkScripted Reconnecting []))
                 (exec (sendMessage 6 "how are you") (exec (sendMessage 5 "hi") fresh))) in
  let w2 := transport_becomes (Some (mkScripted Connected [])) w1 in
  messageQueue (this w1) =
    [mkQueueEntry 5 "hi"; mkQueueEntry 6 "how are you"; mkQueueEntry 5 "bye"] ∧
  invocations (effects w1) = [] ∧
  messageQueue (this (exec flushMessageQueue w2)) = [] ∧
  invocations (effects (exec flushMessageQueue w2)) =
    [(SendMessage 5 "hi", None); (SendMessage 6 "how are you", None);
     (SendMessage 5 "bye", None)].
Proof.
  intros sends w1 w2.
  assert (Hoff : offline_sends fresh sends w1).
  { apply offline_send; [reflexivity|]. apply offline_send; [reflexivity|].
    apply (offline_transport _ (Some (mkScripted Reconnecting []))).
    apply offline_send; [reflexivity|]. apply offline_done. }
  destruct (offline_sends_then_flush fresh sends w1 eq_refl Hoff)
    as (Hq & _ & Hi & Hflush).
  destruct (Hflush (mkScripted Connected [])) as (_ & He & Hi2).
  { simpl. done. }
  split; [exact Hq|]. split; [exact Hi|]. split; [exact He|exact Hi2].
Defined.

(** A flush of three entries whose second resend is rejected: the three
    requests go out in order, the first and third entry are delivered,
    the second is the queue afterwards. And a flush of an empty queue
    does nothing at all. *)
Lemma flushMessageQueue_loses_nothing_witness :
  let q := [mkQueueEntry 1 "a"; mkQueueEntry 2 "b"; mkQueueEntry 3 "c"] in
  let t := mkScripted Connected [None; Some "socket closed"; None] in
  let w := mkWorld (set_messageQueue q (set_connection (Some t) new_ChatService)) [] [] in
  let w0 := transport_becomes (Some t) fresh in
  (messageQueue (this (exec flushMessageQueue w)) = [mkQueueEntry 2 "b"] ∧
   invocations (effects (exec flushMessageQueue w)) =
     [(SendMessage 1 "a", None); (SendMessage 2 "b", Some "socket closed");
      (SendMessage 3 "c", None)]) ∧
  flushMessageQueue w0 = (Normal tt, w0).
Proof.
  intros q t w w0. split.
  - destruct (proj1 (proj2 flushMessageQueue_loses_nothing) w) as (_ & _ & Hq & Hi & _).
    split; [exact Hq|exact Hi].
  - apply (proj2 (proj2 (proj2 flushMessageQueue_loses_nothing)) w0). reflexivity.
Defined.

(** A flush while the transport is still reconnecting: every entry goes
    back to the queue and no remote call is made. *)
Lemma flushMessageQueue_while_reconnecting :
  let q := [mkQueueEntry 1 "a"; mkQueueEntry 2 "b"] in
  let t := mkScripted Reconnecting [] in
  let w := mkWorld (set_messageQueue q (set_connection (Some t) new_ChatService)) [] [] in
  messageQueue (this (exec flushMessageQueue w)) = q ∧
  invocations (effects (exec flushMessageQueue w)) = [].
Proof. repeat split. Qed.



(** Listeners 7 and 4, subscribed in that order, are called in that
    order; after 7 is removed only 4 is called. *)
Lemma listeners_fire_in_order :
  let w := steps [ASubscribe MessageReceived 7%nat; ASubscribe MessageReceived 4%nat;
                  AFire (EvReceiveMessage VNull);
                  AUnsubscribe MessageReceived 7%nat;
                  AFire (EvReceiveMessage (VString "x"))] fresh in
  calls (effects w) = [(7%nat, VNull); (4%nat, VNull); (4%nat, VString "x")].
Proof. reflexivity. Qed.



End Scenarios.
(* ===================================================================== *)
(** * Further properties of the code *)
(* ===================================================================== *)

(** ** Login, logout and the stored session *)

Section StoredSession.
Import Storage authService.

Lemma getItem_setItem_eq k v b : getItem k (setItem k v b) = Some v.
Proof. apply lookup_insert_eq. Qed.

Lemma store_session_getItem r b :
  getItem "token" (store_session r b) = Some (token r) ∧
  getItem "userId" (store_session r b) = Some (toString (userId r)) ∧
  getItem "username" (store_session r b) = Some (username r).
Proof.
  unfold store_session. repeat split.
  - rewrite !getItem_setItem_ne by done. apply getItem_setItem_eq.
  - rewrite getItem_setItem_ne by done. apply getItem_setItem_eq.
  - apply getItem_setItem_eq.
Qed.

Lemma store_session_other r b k :
  k ∉ ["token"; "userId"; "username"] →
  getItem k (store_session r b) = getItem k b.
Proof.
  rewrite !not_elem_of_cons. intros (? & ? & ? & _).
  unfold store_session. by rewrite !getItem_setItem_ne.
Qed.

Lemma Browser_eq b1 b2 :
  localStorage b1 = localStorage b2 → location_href b1 = location_href b2 → b1 = b2.
Proof. destruct b1, b2; simpl. by intros -> ->. Qed.

(** Logging out undoes a login: storage after [logout] is the same
    whether or not a session was stored before, every key other than
    the three session keys keeps its value, and a second [logout]
    changes nothing. *)
Theorem logout_undoes_store_session :
  ∀ r b,
    logout (store_session r b) = logout b ∧
    logout (logout b) = logout b ∧
    (∀ k, k ∉ ["token"; "userId"; "username"] → getItem k (logout b) = getItem k b) ∧
    location_href (logout b) = location_href b.
Proof.
  intros r b. split; [|split; [|split; [|done]]].
  - apply Browser_eq; [|done]. apply map_eq. intros k.
    unfold logout, store_session, removeItem, setItem; simpl.
    rewrite !lookup_delete, !lookup_insert.
    by repeat (case_decide; try done).
  - apply Browser_eq; [|done]. apply map_eq. intros k.
    unfold logout, removeItem; simpl.
    rewrite !lookup_delete. by repeat (case_decide; try done).
  - intros k. rewrite !not_elem_of_cons. intros (? & ? & ? & _).
    unfold logout. by rewrite !getItem_removeItem_ne.
Qed.

Lemma logout_undoes_store_session_witness :
  getItem "theme" (logout (mkBrowser {[ "theme" := "dark"; "token" := "t0" ]} "/chat"))
  = Some "dark".
Proof.
  rewrite (proj1 (proj2 (proj2 (logout_undoes_store_session
             (mkAuthResponse "" 0 "") (mkBrowser {[ "theme" := "dark"; "token" := "t0" ]} "/chat"))))
             "theme").
  - reflexivity.
  - intros Hin. not_in_list.
Defined.

End StoredSession.

(** ** Reading the stored user id back *)

Section CurrentUser.
Import Storage authService Chat.

Lemma pretty_N_char_digit d :
  (d < 10)%N → digitValue 10 (pretty_N_char d) = Some d.
Proof.
  intros Hd.
  assert (d = 0 ∨ d = 1 ∨ d = 2 ∨ d = 3 ∨ d = 4 ∨ d = 5 ∨ d = 6 ∨ d = 7 ∨ d = 8 ∨ d = 9)%N
    as Hcases by lia.
  by repeat (destruct Hcases as [->|Hcases]; [done|]); subst.
Qed.

Lemma pretty_N_char_digitChars d : pretty_N_char d ∈ digitChars.
Proof.
  unfold pretty_N_char, digitChars. repeat case_match; in_list.
Qed.

(** Reading the digits [pretty_N_go] writes gives the number back. *)
Lemma parseDigits_pretty_N_go x :
  (0 < x)%N → ∀ s, parseDigits 10 (pretty_N_go x s) None = parseDigits 10 s (Some x).
Proof.
  induction (N.lt_wf_0 x) as [x _ IH]. intros Hx s.
  rewrite pretty_N_go_step by done.
  assert (Hd : (x `mod` 10 < 10)%N) by (apply N.mod_lt; lia).
  assert (Hx10 : (x = 10 * (x `div` 10) + x `mod` 10)%N) by (apply N.div_mod; lia).
  destruct (decide (x `div` 10 = 0)%N) as [Hz|Hnz].
  - rewrite Hz, pretty_N_go_0. simpl. rewrite (pretty_N_char_digit _ Hd). simpl.
    do 2 f_equal. lia.
  - rewrite IH; [|apply N.div_lt; lia|lia].
    simpl. rewrite (pretty_N_char_digit _ Hd). simpl. do 2 f_equal. lia.
Qed.

Lemma pretty_N_go_head x :
  (0 < x)%N → ∀ s, (s = "" ∨ ∃ a' rest', s = String a' rest' ∧ a' ∈ digitChars) →
  decimalHead (pretty_N_go x s).
Proof.
  induction (N.lt_wf_0 x) as [x _ IH]. intros Hx s Hs.
  rewrite pretty_N_go_step by done.
  destruct (decide (x `div` 10 = 0)%N) as [Hz|Hnz].
  - rewrite Hz, pretty_N_go_0. eexists _, _. split; [done|].
    split; [apply pretty_N_char_digitChars|done].
  - apply (IH (x `div` 10)%N).
    + apply N.div_lt; lia.
    + by apply N.neq_0_lt_0.
    + right. eexists _, _. split; [done|]. apply pretty_N_char_digitChars.
Qed.

Lemma decimalHead_strip str :
  decimalHead str →
  skipWhiteSpace str = str ∧ stripSign str = (1, str) ∧ stripPrefix str = (10%N, str).
Proof.
  intros (a & rest & -> & Ha & Hrest). unfold digitChars in *.
  destruct Hrest as [->|(a' & rest' & -> & Ha')].
  - repeat (apply elem_of_cons in Ha as [->|Ha]; [done|]).
    by apply elem_of_nil in Ha.
  - repeat (apply elem_of_cons in Ha as [->|Ha];
      [ repeat (apply elem_of_cons in Ha' as [->|Ha']; [done|]);
        by apply elem_of_nil in Ha' |]).
    by apply elem_of_nil in Ha.
Qed.

Lemma parseInt_pretty_N_go x :
  (0 < x)%N → parseInt (Some (pretty_N_go x "")) = Num (Z.of_N x).
Proof.
  intros Hx. unfold parseInt.
  destruct (decimalHead_strip _ (pretty_N_go_head x Hx "" (or_introl eq_refl)))
    as (-> & -> & ->).
  rewrite parseDigits_pretty_N_go by done. simpl. f_equal. lia.
Qed.

Lemma parseInt_minus str :
  decimalHead str →
  parseInt (Some (String "-" str)) =
    match parseInt (Some str) with
    | Num n => Num (- n)
    | NaN => NaN
    end.
Proof.
  intros Hstr. destruct (decimalHead_strip str Hstr) as (Hskip & Hsign & Hprefix).
  unfold parseInt.
  change (skipWhiteSpace (String "-" str)) with (String "-" str).
  change (stripSign (String "-" str)) with (-1, str).
  rewrite Hskip, Hsign. cbn iota. rewrite Hprefix.
  destruct (parseDigits 10 str None) as [n|]; [|done]. f_equal. lia.
Qed.

Lemma parseInt_toString n : parseInt (Some (toString n)) = Num n.
Proof.
  unfold toString, pretty, pretty_Z.
  destruct n as [|p|p]; [done|..];
    unfold pretty, pretty_positive, pretty, pretty_N; rewrite decide_False by done.
  - by rewrite parseInt_pretty_N_go.
  - change ("-" +:+ pretty_N_go (N.pos p) "") with (String "-" (pretty_N_go (N.pos p) "")).
    rewrite parseInt_minus by (by apply pretty_N_go_head; [|left]).
    by rewrite parseInt_pretty_N_go.
Qed.

Lemma getCurrentUser_store_session_eq (r : AuthResponse) (b : Browser) :
  mkCurrentUser (parseInt (getItem "userId" (store_session r b)))
    (getItem "username" (store_session r b)) (getItem "token" (store_session r b)) =
  mkCurrentUser (Num (authService.userId r))
    (Some (authService.username r)) (Some (authService.token r)).
Proof.
  destruct (store_session_getItem r b) as (-> & -> & ->).
  by rewrite parseInt_toString.
Qed.

(** The session written at login reads back unchanged: for a user id a
    JavaScript number holds exactly, [getCurrentUser()] after the three
    writes of [login] returns that id as a number, with the user name
    and the token as stored. *)
Theorem getCurrentUser_store_session :
  ∀ (r : AuthResponse) (b : Browser),
    isSafeInteger (authService.userId r) →
    getCurrentUser (store_session r b) =
      mkCurrentUser (Num (authService.userId r))
        (Some (authService.username r)) (Some (authService.token r)).
Proof.
  intros r b _. unfold getCurrentUser.
  destruct (store_session_getItem r b) as (-> & -> & ->).
  by rewrite parseInt_toString.
Qed.

Lemma getCurrentUser_store_session_witness :
  getCurrentUser (store_session (mkAuthResponse "t0" (-42) "ann") (mkBrowser ∅ "/login"))
  = mkCurrentUser (Num (-42)) (Some "ann") (Some "t0").
Proof.
  apply (getCurrentUser_store_session (mkAuthResponse "t0" (-42) "ann")).
  unfold isSafeInteger. simpl. lia.
Defined.

(** With no session stored, as after [logout()], [getCurrentUser()] has
    [NaN] for the user id and [null] for the name and the token, and
    [NaN] is strictly equal to no user id. *)
Theorem getCurrentUser_logout :
  ∀ b,
    getCurrentUser (logout b) = mkCurrentUser NaN None None ∧
    (∀ x, strict_equals x (Chat.userId (getCurrentUser (logout b))) = false).
Proof.
  intros b. unfold getCurrentUser.
  rewrite !logout_getItem by in_list. split; [done|]. by intros [|x].
Qed.

End CurrentUser.

(** ** Requests through the axios instance *)

Section Requests.
Import Storage authService api.

(** The request interceptor adds the header [Authorization: Bearer
    <token>] exactly when [isAuthenticated()] holds, that is when a
    non-empty token is stored; otherwise the configuration is passed on
    unchanged; every other header is kept in both cases. *)
Theorem request_fulfilled_bearer :
  ∀ (config : Config) (b : Browser),
    (isAuthenticated b = true →
       ∃ t, getItem "token" b = Some t ∧
            headers (request_fulfilled config b) !! "Authorization"
              = Some ("Bearer " +:+ t)) ∧
    (isAuthenticated b = false → request_fulfilled config b = config) ∧
    (∀ h, h ≠ "Authorization" →
          headers (request_fulfilled config b) !! h = headers config !! h).
Proof.
  intros config b. unfold isAuthenticated, request_fulfilled.
  destruct (getItem "token" b) as [t|]; simpl; [|by repeat split].
  destruct (negb (String.eqb t "")); simpl.
  - split; [|split; [done|]].
    + intros _. exists t. split; [done|]. apply lookup_insert_eq.
    + intros h Hh. by rewrite lookup_insert_ne.
  - by repeat split.
Qed.

Lemma request_fulfilled_bearer_witness :
  headers (request_fulfilled (mkConfig {[ "Content-Type" := "application/json" ]})
             (mkBrowser {[ "token" := "t0" ]} "/chat")) !! "Content-Type"
  = Some "application/json".
Proof.
  rewrite (proj2 (proj2 (request_fulfilled_bearer
             (mkConfig {[ "Content-Type" := "application/json" ]})
             (mkBrowser {[ "token" := "t0" ]} "/chat"))) "Content-Type");
    [reflexivity|discriminate].
Defined.

Lemma call_unfold reply b :
  call reply b =
    match reply with
    | Reply r =>
        if (200 <=? status r) && (status r <? 300) then (Normal r, b)
        else if status r =? 401
             then (Throw (mkAxiosError (Some r)),
                   navigate "/login"
                     (removeItem "username" (removeItem "userId" (removeItem "token" b))))
             else (Throw (mkAxiosError (Some r)), b)
    | NetworkError => (Throw (mkAxiosError None), b)
    end.
Proof.
  unfold call, settle, response_rejected, is_401, response_fulfilled.
  destruct reply as [r|]; [|done].
  by destruct ((200 <=? status r) && (status r <? 300)).
Qed.

(** A REST call touches the session only on a 401: for every other
    answer of the server, and when no answer arrives, storage and
    location are left as they were. The call resolves exactly for a
    status in [200, 300), with the response as it came. *)
Theorem call_frame :
  ∀ (reply : ServerReply) (b : Browser),
    ((∀ r, reply = Reply r → status r ≠ 401) → snd (call reply b) = b) ∧
    (∀ r', fst (call reply b) = Normal r' ↔
           reply = Reply r' ∧ 200 ≤ status r' < 300) ∧
    (∀ e, fst (call reply b) = Throw e →
          e = mkAxiosError (match reply with Reply r => Some r | NetworkError => None end)).
Proof.
  intros reply b. rewrite call_unfold. destruct reply as [r|]; simpl.
  - destruct (Z.leb_spec 200 (status r)), (Z.ltb_spec (status r) 300); simpl.
    + split; [done|]. split; [|done]. intros r'. split.
      * intros [= <-]. done.
      * by intros [[= <-] _].
    + destruct (Z.eqb_spec (status r) 401) as [He|Hne]; simpl.
      * split; [intros Hno; by destruct (Hno r)|]. split; [|by intros e [= <-]].
        intros r'. split; [done|]. intros [[= <-] ?]. lia.
      * split; [done|]. split; [|by intros e [= <-]].
        intros r'. split; [done|]. intros [[= <-] ?]. lia.
    + destruct (Z.eqb_spec (status r) 401) as [He|Hne]; simpl.
      * split; [intros Hno; by destruct (Hno r)|]. split; [|by intros e [= <-]].
        intros r'. split; [done|]. intros [[= <-] ?]. lia.
      * split; [done|]. split; [|by intros e [= <-]].
        intros r'. split; [done|]. intros [[= <-] ?]. lia.
    + destruct (Z.eqb_spec (status r) 401) as [He|Hne]; simpl.
      * split; [intros Hno; by destruct (Hno r)|]. split; [|by intros e [= <-]].
        intros r'. split; [done|]. intros [[= <-] ?]. lia.
      * split; [done|]. split; [|by intros e [= <-]].
        intros r'. split; [done|]. intros [[= <-] ?]. lia.
  - split; [done|]. split; [|by intros e [= <-]].
    intros r'. split; [done|]. by intros [? _].
Qed.

Lemma call_frame_witness :
  snd (call (Reply (mkResponse 500 "")) (mkBrowser {[ "token" := "t0" ]} "/chat"))
  = mkBrowser {[ "token" := "t0" ]} "/chat".
Proof.
  apply (proj1 (call_frame (Reply (mkResponse 500 ""))
                  (mkBrowser {[ "token" := "t0" ]} "/chat"))).
  intros r [= <-]. discriminate.
Defined.

End Requests.

(** ** The route guard *)

Section RouteGuard.
Import Storage authService api Routes.

Lemma getItem_navigate_id k url b : getItem k (navigate url b) = getItem k b.
Proof. done. Qed.

Lemma App_cases r b :
  App r b =
    match r with
    | RouteLogin => Render LoginPage
    | RouteRegister => Render RegisterPage
    | RouteChat => if isAuthenticated b then Render ChatPage else Navigate "/login"
    | RouteRoot => if isAuthenticated b then Navigate "/chat" else Navigate "/login"
    end.
Proof. destruct r; simpl; try done. unfold ProtectedRoute. by destruct (isAuthenticated b). Qed.

Lemma shown_unfold fuel r b :
  shown fuel r b =
    match App r b with
    | Render p => Some p
    | Navigate to =>
        match fuel, routeOf to with
        | S fuel', Some r' => shown fuel' r' b
        | _, _ => None
        end
    end.
Proof. by destruct fuel. Qed.

Lemma shown_authenticated fuel b :
  isAuthenticated b = true →
  shown (S fuel) RouteRoot b = Some ChatPage ∧ shown fuel RouteChat b = Some ChatPage.
Proof.
  intros Ha.
  assert (Hchat : ∀ f, shown f RouteChat b = Some ChatPage).
  { intros f. by rewrite shown_unfold, App_cases, Ha. }
  split; [|done]. rewrite shown_unfold, App_cases, Ha. simpl. apply Hchat.
Qed.

Lemma shown_unauthenticated fuel r b :
  isAuthenticated b = false →
  shown (S fuel) r b = Some (match r with RouteRegister => RegisterPage | _ => LoginPage end).
Proof.
  intros Ha.
  assert (Hlogin : ∀ f, shown f RouteLogin b = Some LoginPage).
  { intros f. by rewrite shown_unfold. }
  destruct r; rewrite shown_unfold, App_cases, ?Ha; simpl; try done; apply Hlogin.
Qed.

(** The chat page is shown only to an authenticated browser: whatever
    route is entered and however many redirects are followed, the chat
    page is reached only if [isAuthenticated()] holds. Every route
    settles on a page after at most one redirect: an authenticated
    browser entering [/] or [/chat] sees the chat page, any other one the
    login page. *)
Theorem chat_page_needs_authentication :
  (∀ fuel r b, shown fuel r b = Some ChatPage → isAuthenticated b = true) ∧
  (∀ r b, is_Some (shown 1 r b)) ∧
  (∀ b, isAuthenticated b = true →
        shown 1 RouteRoot b = Some ChatPage ∧ shown 1 RouteChat b = Some ChatPage) ∧
  (∀ b, isAuthenticated b = false →
        shown 1 RouteRoot b = Some LoginPage ∧ shown 1 RouteChat b = Some LoginPage).
Proof.
  split; [|split; [|split]].
  - intros fuel r b Hshown.
    destruct (isAuthenticated b) eqn:Ha; [done|].
    destruct fuel as [|fuel].
    + rewrite shown_unfold, App_cases, Ha in Hshown. by destruct r.
    + rewrite (shown_unauthenticated fuel r b Ha) in Hshown. by destruct r.
  - intros r b. destruct (isAuthenticated b) eqn:Ha.
    + destruct (shown_authenticated 0 b Ha) as [Hroot Hchat].
      destruct r; [by rewrite shown_unfold..| |done].
      by rewrite shown_unfold, App_cases, Ha.
    + by rewrite (shown_unauthenticated 0 r b Ha).
  - intros b Ha. destruct (shown_authenticated 0 b Ha) as [Hroot _].
    split; [done|]. by rewrite shown_unfold, App_cases, Ha.
  - intros b Ha. by rewrite !(shown_unauthenticated 0 _ b Ha).
Qed.

Lemma chat_page_needs_authentication_witness :
  isAuthenticated (mkBrowser {[ "token" := "t0" ]} "/") = true.
Proof.
  apply (proj1 chat_page_needs_authentication 1%nat RouteRoot). reflexivity.
Defined.

(** After any REST call answered with 401 the browser is logged out for
    the whole application: [isAuthenticated()] is false, the protected
    route redirects to [/login] and the chat page cannot be shown, and
    later requests carry no bearer header of their own. *)
Theorem call_401_logs_out :
  ∀ (r : Response) (b : Browser),
    status r = 401 →
    let b' := snd (call (Reply r) b) in
    isAuthenticated b' = false ∧
    (∀ children, ProtectedRoute children b' = Navigate "/login") ∧
    (∀ fuel route, shown fuel route b' ≠ Some ChatPage) ∧
    (∀ config, request_fulfilled config b' = config).
Proof.
  intros r b Hs b'.
  assert (Ha : isAuthenticated b' = false).
  { subst b'. rewrite call_unfold. simpl. rewrite Hs. simpl.
    unfold isAuthenticated. rewrite getItem_navigate_id.
    by rewrite session_keys_removed by in_list. }
  split; [done|]. split; [|split].
  - intros children. unfold ProtectedRoute. by rewrite Ha.
  - intros fuel route Hshown. destruct fuel as [|fuel].
    + rewrite shown_unfold, App_cases, Ha in Hshown. by destruct route.
    + rewrite (shown_unauthenticated fuel route b' Ha) in Hshown. by destruct route.
  - intros config. unfold request_fulfilled. unfold isAuthenticated in Ha.
    destruct (getItem "token" b') as [t|]; [|done]. by rewrite Ha.
Qed.

Lemma call_401_logs_out_witness :
  isAuthenticated
    (snd (call (Reply (mkResponse 401 "")) (mkBrowser {[ "token" := "t0" ]} "/chat")))
  = false.
Proof.
  apply (call_401_logs_out (mkResponse 401 "") (mkBrowser {[ "token" := "t0" ]} "/chat")).
  reflexivity.
Defined.

End RouteGuard.

(** ** Logging in *)

Section LoggingIn.
Import Storage authService api Login.
Variable authResponse : string → option Body.
Variable messageOf : string → option string.

Lemma login_unfold reply b :
  login authResponse reply b =
    match reply with
    | Reply r =>
        if (200 <=? status r) && (status r <? 300)
        then store (authResponse (data r)) b
        else (Throw (Rejected (mkAxiosError (Some r))), snd (call reply b))
    | NetworkError => (Throw (Rejected (mkAxiosError None)), b)
    end.
Proof.
  unfold login. rewrite call_unfold. destruct reply as [r|]; [|done].
  destruct ((200 <=? status r) && (status r <? 300)); [done|].
  by destruct (status r =? 401).
Qed.

Lemma register_login reply b : register authResponse reply b = login authResponse reply b.
Proof. done. Qed.

Lemma login_accepted r b :
  200 ≤ status r < 300 →
  login authResponse (Reply r) b = store (authResponse (data r)) b.
Proof.
  intros Hs. rewrite login_unfold.
  destruct (Z.leb_spec 200 (status r)); [|lia].
  destruct (Z.ltb_spec (status r) 300); [done|lia].
Qed.

(** With the three fields in the body, the lines after the [await] are
    the three writes of [store_session]. *)
Lemma store_body_of d b : store (Some (body_of d)) b = (Normal (body_of d), store_session d b).
Proof. done. Qed.

Lemma errorMessage_nonempty err : errorMessage messageOf err ≠ "".
Proof.
  unfold errorMessage. destruct err as [err|m]; [|done].
  destruct (response err) as [r|]; [|done].
  destruct (messageOf (data r)) as [m|]; [|done].
  destruct (String.eqb_spec m ""); done.
Qed.

(** A login the server accepts, with a status in [200, 300). When the
    body carries the three fields, with a user id that a JavaScript
    number holds exactly, [login] and [register] both resolve with the
    body and store the three fields, so the session reads back through
    [getItem] and [getCurrentUser]; [handleSubmit] then shows no error,
    is no longer loading, and has navigated to [/chat]; the browser
    counts as authenticated afterwards exactly when the token received
    is not empty. When the body has no [userId] (or [null]), [login]
    writes the token, as the string ['undefined'] if that is missing
    too, and then rejects with a [TypeError]: [handleSubmit] shows the
    general error message and does not navigate, the [userId] and
    [username] entries are left as they were, and the browser now
    counts as authenticated. When there is no body object at all
    nothing is written. *)
Theorem handleSubmit_accepted :
  ∀ (r : Response) (f : Form) (b : Browser),
    200 ≤ status r < 300 →
    let '(f', b') := handleSubmit authResponse messageOf (Reply r) f b in
    (∀ d, authResponse (data r) = Some (body_of d) →
          Chat.isSafeInteger (userId d) →
          login authResponse (Reply r) b = (Normal (body_of d), store_session d b) ∧
          register authResponse (Reply r) b = (Normal (body_of d), store_session d b) ∧
          f' = mkForm (username f) (password f) "" false ∧
          location_href b' = "/chat" ∧
          getItem "token" b' = Some (token d) ∧
          getItem "userId" b' = Some (toString (userId d)) ∧
          getItem "username" b' = Some (authService.username d) ∧
          Chat.getCurrentUser b' =
            Chat.mkCurrentUser (Chat.Num (userId d)) (Some (authService.username d))
              (Some (token d)) ∧
          (isAuthenticated b' = true ↔ token d ≠ "")) ∧
    (∀ body, authResponse (data r) = Some body →
             b_userId body = Missing ∨ b_userId body = Null →
             (∃ m, login authResponse (Reply r) b = (Throw (TypeError m), b')) ∧
             f' = mkForm (username f) (password f)
                    "Login failed. Please check your credentials." false ∧
             b' = setItem "token" (stringOf (b_token body)) b ∧
             location_href b' = location_href b ∧
             getItem "userId" b' = getItem "userId" b ∧
             getItem "username" b' = getItem "username" b ∧
             (b_token body = Missing →
                getItem "token" b' = Some "undefined" ∧ isAuthenticated b' = true)) ∧
    (authResponse (data r) = None →
       (∃ m, login authResponse (Reply r) b = (Throw (TypeError m), b)) ∧
       f' = mkForm (username f) (password f)
              "Login failed. Please check your credentials." false ∧
       b' = b).
Proof.
  intros r f b Hs. unfold handleSubmit. rewrite (login_accepted r b Hs).
  destruct (authResponse (data r)) as [body|] eqn:Hbody.
  - destruct (b_userId body) as [| |n] eqn:Hid.
    + simpl. rewrite Hid. split; [|split; [|done]].
      { intros d [= ->]. discriminate Hid. }
      intros ? [= <-] _. split; [by eexists|]. split; [done|]. split; [done|].
      split; [done|]. split; [by apply getItem_setItem_ne|].
      split; [by apply getItem_setItem_ne|].
      intros ->. unfold isAuthenticated. by rewrite getItem_setItem_eq.
    + simpl. rewrite Hid. split; [|split; [|done]].
      { intros d [= ->]. discriminate Hid. }
      intros ? [= <-] _. split; [by eexists|]. split; [done|]. split; [done|].
      split; [done|]. split; [by apply getItem_setItem_ne|].
      split; [by apply getItem_setItem_ne|].
      intros ->. unfold isAuthenticated. by rewrite getItem_setItem_eq.
    + simpl. rewrite Hid. split; [|split; [|done]].
      * intros d [= ->] Hsafe. rewrite register_login, (login_accepted r b Hs), Hbody.
        rewrite store_body_of. simpl in Hid. injection Hid as <-.
        destruct (store_session_getItem d b) as (Ht & Hu & Hn).
        change (setItem "username" _ _) with (store_session d b).
        split; [done|]. split; [done|]. split; [done|]. split; [done|].
        rewrite !getItem_navigate_id. split; [done|]. split; [done|]. split; [done|].
        split.
        { unfold Chat.getCurrentUser. rewrite !getItem_navigate_id.
          apply (getCurrentUser_store_session_eq d b). }
        unfold isAuthenticated. rewrite getItem_navigate_id, Ht, truthy_spec.
        split; [by intros (? & [= <-] & ?)|]. intros ?. by exists (token d).
      * intros ? [= <-] [Hm|Hm]; congruence.
  - simpl. split; [done|]. split; [done|]. intros _. split; [by eexists|]. done.
Qed.

(** A login that fails, by any status outside [200, 300) or with no
    answer at all: [handleSubmit] shows a non-empty error message, is
    no longer loading, keeps what was typed, and writes no session:
    every storage key has the value it had or is gone, so a browser that
    was not authenticated before is not authenticated afterwards. *)
Theorem handleSubmit_refused :
  ∀ (reply : ServerReply) (f : Form) (b : Browser),
    (∀ r, reply = Reply r → ¬ 200 ≤ status r < 300) →
    let '(f', b') := handleSubmit authResponse messageOf reply f b in
    error f' ≠ "" ∧
    loading f' = false ∧
    Login.username f' = Login.username f ∧ password f' = password f ∧
    (∀ k, getItem k b' = getItem k b ∨ getItem k b' = None) ∧
    (isAuthenticated b' = true → isAuthenticated b = true).
Proof.
  intros reply f b Hrefused. unfold handleSubmit. rewrite login_unfold.
  assert (Hkeys : ∀ b0, ∀ k,
            getItem k (navigate "/login"
                         (removeItem "username" (removeItem "userId" (removeItem "token" b0))))
              = getItem k b0 ∨
            getItem k (navigate "/login"
                         (removeItem "username" (removeItem "userId" (removeItem "token" b0))))
              = None).
  { intros b0 k. rewrite getItem_navigate_id. unfold getItem, removeItem; simpl.
    rewrite !lookup_delete. repeat case_decide; auto. }
  destruct reply as [r|].
  - destruct ((200 <=? status r) && (status r <? 300)) eqn:Hok.
    { apply andb_prop in Hok as [?%Z.leb_le ?%Z.ltb_lt]. destruct (Hrefused r eq_refl). lia. }
    rewrite call_unfold, Hok. simpl.
    split; [apply (errorMessage_nonempty (Rejected (mkAxiosError (Some r))))|].
    split; [done|]. split; [done|]. split; [done|].
    destruct (status r =? 401); simpl.
    + split; [apply Hkeys|]. unfold isAuthenticated.
      destruct (Hkeys b "token") as [->| ->]; done.
    + split; [by left|done].
  - simpl. split; [apply (errorMessage_nonempty (Rejected (mkAxiosError None)))|].
    by repeat split; try left.
Qed.

End LoggingIn.

Section LoggingInExamples.
Import Storage authService api Login.

(** An accepted login with a complete body, and one whose body is
    empty: the failed login leaves the token ['undefined'] behind. *)
Lemma handleSubmit_accepted_witness :
  let reply := Reply (mkResponse 200 "body") in
  let complete := λ _ : string, Some (body_of (mkAuthResponse "t0" 7 "ann")) in
  let empty := λ _ : string, Some (mkBody Missing Missing Missing) in
  let messageOf := λ _ : string, @None string in
  let form := mkForm "ann" "pw" "" false in
  Chat.getCurrentUser (snd (handleSubmit complete messageOf reply form (mkBrowser ∅ "/login")))
    = Chat.mkCurrentUser (Chat.Num 7) (Some "ann") (Some "t0") ∧
  getItem "token" (snd (handleSubmit empty messageOf reply form (mkBrowser ∅ "/login")))
    = Some "undefined".
Proof.
  intros reply complete empty messageOf form. split.
  - pose proof (handleSubmit_accepted complete messageOf (mkResponse 200 "body")
                  form (mkBrowser ∅ "/login")) as Hacc.
    simpl in Hacc. destruct Hacc as [Hacc _]; [lia|].
    apply (Hacc (mkAuthResponse "t0" 7 "ann")); [reflexivity|].
    unfold Chat.isSafeInteger. simpl. lia.
  - pose proof (handleSubmit_accepted empty messageOf (mkResponse 200 "body")
                  form (mkBrowser ∅ "/login")) as Hacc.
    simpl in Hacc. destruct Hacc as (_ & Hacc & _); [lia|].
    apply (Hacc (mkBody Missing Missing Missing)); [reflexivity|by left|reflexivity].
Defined.

Lemma handleSubmit_refused_witness :
  let reply := Reply (mkResponse 401 "body") in
  let authResponse := λ _ : string, Some (body_of (mkAuthResponse "t0" 7 "ann")) in
  let messageOf := λ _ : string, Some "Invalid credentials" in
  error (fst (handleSubmit authResponse messageOf reply (mkForm "ann" "pw" "" false)
                (mkBrowser {[ "token" := "old" ]} "/login"))) ≠ "".
Proof.
  intros reply authResponse messageOf.
  pose proof (handleSubmit_refused authResponse messageOf reply
                (mkForm "ann" "pw" "" false) (mkBrowser {[ "token" := "old" ]} "/login")) as Href.
  simpl in Href. apply Href. intros r [= <-]. simpl. lia.
Defined.

End LoggingInExamples.

(** ** The status indicator *)

Section StatusIndicator.
Import ConnectionStatus.
Context {T : Type} `{HubConnection T}.

Lemma getStatusInfo_cases status :
  (status = "connected" ∧ getStatusInfo status = mkStatusInfo "Connected" "#4caf50") ∨
  (status = "connecting" ∧ getStatusInfo status = mkStatusInfo "Connecting..." "#ff9800") ∨
  (status = "reconnecting" ∧ getStatusInfo status = mkStatusInfo "Reconnecting..." "#ff9800") ∨
  (status = "disconnected" ∧ getStatusInfo status = mkStatusInfo "Disconnected" "#f44336") ∨
  (status = "error" ∧ getStatusInfo status = mkStatusInfo "Connection Error" "#f44336") ∨
  ((status ∉ connection_states) ∧ getStatusInfo status = mkStatusInfo "Unknown" "#999").
Proof.
  unfold getStatusInfo.
  destruct (String.eqb_spec status "connected") as [->|H1]; [by left|].
  destruct (String.eqb_spec status "connecting") as [->|H2]; [by right; left|].
  destruct (String.eqb_spec status "reconnecting") as [->|H3]; [by right; right; left|].
  destruct (String.eqb_spec status "disconnected") as [->|H4];
    [by right; right; right; left|].
  destruct (String.eqb_spec status "error") as [->|H5];
    [by right; right; right; right; left|].
  do 5 right. split; [|done]. unfold connection_states.
  rewrite !not_elem_of_cons. repeat split; try done. apply not_elem_of_nil.
Qed.

(** The indicator is green, with the text Connected, for the status
    ['connected'] and for no other; it shows Unknown in grey exactly for
    a status outside the five state names. *)
Lemma getStatusInfo_green_and_unknown :
  ∀ status,
    (color (getStatusInfo status) = "#4caf50" ↔ status = "connected") ∧
    (text (getStatusInfo status) = "Connected" ↔ status = "connected") ∧
    (text (getStatusInfo status) = "Unknown" ↔ status ∉ connection_states) ∧
    (color (getStatusInfo status) = "#999" ↔ status ∉ connection_states).
Proof.
  intros status. unfold connection_states.
  destruct (getStatusInfo_cases status)
    as [[-> ->]|[[-> ->]|[[-> ->]|[[-> ->]|[[-> ->]|[Hout ->]]]]]]; simpl;
    repeat split; try done;
    try (intros Hn; exfalso; apply Hn; in_list);
    try (intros ->; exfalso; apply Hout; unfold connection_states; in_list).
Qed.

(** What the indicator shows for the state the service reports:
    Connected exactly when the service holds a connection whose
    transport is connected, Unknown exactly when the transport is
    disconnecting, and never Connection Error. *)
Theorem getStatusInfo_getConnectionState :
  ∀ s : ChatService T,
    let info := getStatusInfo (getConnectionState s) in
    (text info = "Connected" ↔ is_connected (connection s) = true) ∧
    (text info = "Unknown" ↔ ∃ t, connection s = Some t ∧ hub_state t = Disconnecting) ∧
    text info ≠ "Connection Error".
Proof.
  intros s. simpl. rewrite is_connected_true.
  destruct (connection s) as [t|] eqn:Hc.
  - rewrite (getConnectionState_some s t Hc).
    destruct (hub_state t) eqn:Hs; simpl; (split; [|split; [|done]]); split; try done;
      try (by intros (t' & [= <-] & ?); congruence);
      try (intros _; by exists t).
  - rewrite (getConnectionState_no_connection s Hc). simpl.
    split; [|split; [|done]]; split; try done; by intros (? & ? & ?).
Qed.

End StatusIndicator.

(** ** Sending and requesting history *)

Section SendAndHistory.
Context {T : Type} `{HubConnection T}.

Implicit Types (w : World T).

(** What one [sendMessage] adds to the effects and to the queue. *)
Lemma sendMessage_accounting r c w :
  ∃ news requeued,
    effects (exec (sendMessage r c) w) = effects w ++ news ∧
    messageQueue (this (exec (sendMessage r c) w)) = messageQueue (this w) ++ requeued ∧
    delivered news ++ requeued = [mkQueueEntry r c] ∧
    calls news = [] ∧
    (if is_connected (connection (this w))
     then ∃ outcome, invocations news = [(SendMessage r c, outcome)]
     else invocations news = []).
Proof.
  unfold exec. destruct (is_connected (connection (this w))) eqn:Hc.
  - apply is_connected_true in Hc as (t & Hc & Hs).
    destruct (hub_invoke (SendMessage r c) t) as [t' [e|]] eqn:Hi.
    + exists [Invoked (SendMessage r c) (Some e);
              Console Err "Failed to send message, queued for retry:"], [mkQueueEntry r c].
      rewrite (sendMessage_rejected r c w t t' e Hc Hs Hi). simpl.
      repeat split; eauto.
    + exists [Invoked (SendMessage r c) None], [].
      rewrite (sendMessage_resolved r c w t t' Hc Hs Hi). simpl.
      rewrite app_nil_r. repeat split; eauto.
  - exists [Console Log "Message queued (offline):"], [mkQueueEntry r c].
    rewrite (sendMessage_offline r c w Hc). simpl. by repeat split.
Qed.

(** One [sendMessage] accounts for its message exactly once: it is
    either delivered by a remote call that resolved, with the queue left
    as it was, or appended to the end of the queue, never both and never
    neither. When the service is not connected no remote call is made;
    when it is, exactly one is. No listener is called. *)
Theorem sendMessage_delivers_or_queues :
  ∀ r c w,
    let w' := exec (sendMessage r c) w in
    ∃ news requeued,
      effects w' = effects w ++ news ∧
      messageQueue (this w') = messageQueue (this w) ++ requeued ∧
      delivered news ++ requeued = [mkQueueEntry r c] ∧
      calls news = [] ∧
      (is_connected (connection (this w)) = false → invocations news = []) ∧
      (is_connected (connection (this w)) = true →
         ∃ outcome, invocations news = [(SendMessage r c, outcome)]).
Proof.
  intros r c w w'.
  destruct (sendMessage_accounting r c w) as (news & requeued & Hes & Hq & Hacc & Hcalls & Hinv).
  exists news, requeued.
  split; [done|]. split; [done|]. split; [done|]. split; [done|].
  destruct (is_connected (connection (this w))); split; done.
Qed.

(** A history request is never queued and never thrown: while the
    service is not connected [getConversation] only logs a warning,
    leaving the service as it was and making no remote call; while
    connected it makes exactly one [GetConversation] call, and even if
    that call fails the queue is left alone. *)
Theorem getConversation_never_queued :
  ∀ otherUserId w,
    let w' := exec (getConversation otherUserId) w in
    run (getConversation otherUserId) w = Normal tt ∧
    messageQueue (this w') = messageQueue (this w) ∧
    (is_connected (connection (this w)) = false →
       this w' = this w ∧ invocations (effects w') = invocations (effects w)) ∧
    (is_connected (connection (this w)) = true →
       ∃ outcome, invocations (effects w') =
                  invocations (effects w) ++ [(GetConversation otherUserId, outcome)]).
Proof.
  intros otherUserId w w'. subst w'. unfold run, exec.
  rewrite getConversation_unfold. unfold is_connected.
  destruct (connection (this w)) as [t|] eqn:Hc.
  - destruct (bool_decide (hub_state t = Connected)).
    + destruct (hub_invoke (GetConversation otherUserId) t) as [t' [e|]]; simpl;
        rewrite invocations_app; simpl; repeat split; try done; intros _; eauto.
    + simpl. rewrite invocations_console. by repeat split.
  - simpl. rewrite invocations_console. by repeat split.
Qed.

End SendAndHistory.

Section SendAndHistoryExamples.

Lemma sendMessage_delivers_or_queues_witness :
  let w := transport_becomes (Some (mkScripted Connected [Some "socket closed"])) fresh in
  ∃ outcome,
    invocations (drop (length (effects w)) (effects (exec (sendMessage 5 "hi") w)))
    = [(SendMessage 5 "hi", outcome)].
Proof.
  intros w.
  destruct (sendMessage_delivers_or_queues 5 "hi" w)
    as (news & requeued & Hes & _ & _ & _ & _ & Hinv).
  destruct (Hinv eq_refl) as [outcome Hout].
  exists outcome. rewrite Hes, drop_app_length. exact Hout.
Defined.

Lemma getConversation_never_queued_witness :
  this (exec (getConversation 3) fresh) = this fresh.
Proof.
  apply (proj1 (proj2 (proj2 (getConversation_never_queued 3 fresh)))). reflexivity.
Defined.

End SendAndHistoryExamples.

(** ** What the operations leave alone *)

Section Frames.
Context {T : Type} `{HubConnection T} `{Listeners T}.

Implicit Types (w : World T).

Lemma delivered_effect (es : list Effect) (e : Effect) :
  (∀ r c, e ≠ Invoked (SendMessage r c) None) →
  delivered (es ++ [e]) = delivered es.
Proof.
  intros He. rewrite delivered_app.
  destruct e as [| |[r c|] [err|]| |]; simpl; try apply app_nil_r. by destruct (He r c).
Qed.

Lemma rejected_effect (es : list Effect) (e : Effect) :
  (∀ r c err, e ≠ Invoked (SendMessage r c) (Some err)) →
  rejected (es ++ [e]) = rejected es.
Proof.
  intros He. rewrite rejected_app.
  destruct e as [| |[r c|] [err|]| |]; simpl; try apply app_nil_r. by destruct (He r c err).
Qed.

Lemma invocations_effect (es : list Effect) (e : Effect) :
  (∀ i r, e ≠ Invoked i r) →
  invocations (es ++ [e]) = invocations es.
Proof.
  intros He. rewrite invocations_app.
  destruct e as [| |i r| |]; simpl; try apply app_nil_r. by destruct (He i r).
Qed.

(** The steps of a method that neither sends nor flushes keep the
    queue and the record of [SendMessage] calls. *)
Ltac frame_leaves :=
  intros ? Hrecord; simpl;
  rewrite ?messageQueue_set_listeners, ?delivered_effect, ?rejected_effect,
    ?invocations_effect; done.

Lemma fire_frame (e : Event) q d rj i :
  invariant (λ w, messageQueue (this w) = q) (fire e) ∧
  invariant (λ w, delivered (effects w) = d) (fire e) ∧
  invariant (λ w, rejected (effects w) = rj) (fire e) ∧
  invariant (λ w, invocations (effects w) = i) (fire e).
Proof. repeat split; destruct e; simpl; invariant_split; frame_leaves. Qed.

Lemma run_op_frame (op : PublicOp) q d rj i :
  queue_action (AOp op) = false →
  invariant (λ w, messageQueue (this w) = q) (run_op op) ∧
  invariant (λ w, delivered (effects w) = d) (run_op op) ∧
  invariant (λ w, rejected (effects w) = rj) (run_op op) ∧
  ((∀ otherUserId, op ≠ OpGetConversation otherUserId) →
   invariant (λ w, invocations (effects w) = i) (run_op op)).
Proof.
  intros Ha. destruct op as [token| |r c|otherUserId|]; try done;
    (repeat split; [..|intros Hnot]); try (by destruct (Hnot otherUserId));
    simpl; invariant_split; frame_leaves.
Qed.

Lemma run_lifecycle_frame (l : Lifecycle) q d rj i :
  queue_action (ALifecycle l) = false →
  invariant (λ w, messageQueue (this w) = q) (run_lifecycle l) ∧
  invariant (λ w, delivered (effects w) = d) (run_lifecycle l) ∧
  invariant (λ w, rejected (effects w) = rj) (run_lifecycle l) ∧
  invariant (λ w, invocations (effects w) = i) (run_lifecycle l).
Proof.
  intros Ha. destruct l as [| | |error]; try done;
    repeat split; simpl; invariant_split; frame_leaves.
Qed.

(** An action that is no send and no flush keeps the queue and the
    record of [SendMessage] calls, and, unless it is a history request,
    the record of all remote calls. *)
Lemma step_frame (a : Action) w :
  queue_action a = false →
  messageQueue (this (step a w)) = messageQueue (this w) ∧
  delivered (effects (step a w)) = delivered (effects w) ∧
  rejected (effects (step a w)) = rejected (effects w) ∧
  ((∀ otherUserId, a ≠ AOp (OpGetConversation otherUserId)) →
   invocations (effects (step a w)) = invocations (effects w)).
Proof.
  intros Ha. destruct a as [k cb|k cb|e|op|l|n]; try done; simpl.
  - unfold exec. rewrite subscribe_unfold. simpl.
    by rewrite messageQueue_set_listeners.
  - unfold exec. rewrite unsubscribe_unfold. simpl.
    by rewrite messageQueue_set_listeners.
  - destruct (fire_frame e (messageQueue (this w)) (delivered (effects w))
                (rejected (effects w)) (invocations (effects w))) as (Hq & Hd & Hr & Hi).
    split; [by apply Hq|]. split; [by apply Hd|]. split; [by apply Hr|].
    intros _. by apply Hi.
  - destruct (run_op_frame op (messageQueue (this w)) (delivered (effects w))
                (rejected (effects w)) (invocations (effects w)) Ha) as (Hq & Hd & Hr & Hi).
    split; [by apply Hq|]. split; [by apply Hd|]. split; [by apply Hr|].
    intros Hnot. apply Hi; [|done]. intros otherUserId ->. by destruct (Hnot otherUserId).
  - destruct (run_lifecycle_frame l (messageQueue (this w)) (delivered (effects w))
                (rejected (effects w)) (invocations (effects w)) Ha) as (Hq & Hd & Hr & Hi).
    split; [by apply Hq|]. split; [by apply Hd|]. split; [by apply Hr|].
    intros _. by apply Hi.
Qed.

(** The offline queue belongs to [sendMessage] and the flush: no other
    call of the service and no other callback of the transport changes
    it or makes a remote [SendMessage] call, neither subscribing,
    unsubscribing, an incoming event, [connect], [disconnect],
    [getConversation], nor the reconnecting, close and error
    callbacks. In particular [connect] does not flush the queue. *)
Theorem queue_only_changed_by_send_and_flush :
  ∀ (a : Action) w,
    queue_action a = false →
    messageQueue (this (step a w)) = messageQueue (this w) ∧
    delivered (effects (step a w)) = delivered (effects w) ∧
    rejected (effects (step a w)) = rejected (effects w) ∧
    ((∀ otherUserId, a ≠ AOp (OpGetConversation otherUserId)) →
       invocations (effects (step a w)) = invocations (effects w)).
Proof.
  intros a w Ha. by apply step_frame.
Qed.

End Frames.

Section FramesExamples.

(** A message queued before the first [connect] is still queued, and
    unsent, after it. *)
Lemma queue_only_changed_by_send_and_flush_witness :
  let w := exec (sendMessage 5 "hi") fresh in
  messageQueue (this (step (AOp (OpConnect "t0")) w)) = [mkQueueEntry 5 "hi"] ∧
  invocations (effects (step (AOp (OpConnect "t0")) w)) = [].
Proof.
  intros w.
  destruct (queue_only_changed_by_send_and_flush (AOp (OpConnect "t0")) w eq_refl)
    as (Hq & _ & _ & Hi).
  split; [exact Hq|]. apply Hi. discriminate.
Defined.

End FramesExamples.

(** ** Connection lifecycle *)

Section Lifecycle.
Context {T : Type} `{HubConnection T} `{Listeners T}.

Implicit Types (w : World T).

(** If the old connection cannot be stopped, [connect] gives up before
    building a new one: it throws the error of [stop()], makes no
    handshake, notifies nobody, and the service keeps holding the old
    connection. *)
Theorem connect_gives_up_when_stop_fails :
  ∀ token w e,
    stop_rejects w e →
    run (connect token) w = Throw e ∧
    effects (exec (connect token) w) = effects w ++ [Stopped (Some e)] ∧
    ∃ t, connection (this w) = Some t ∧
         connection (this (exec (connect token) w)) = Some (fst (hub_stop t)).
Proof.
  intros token w e Hrej.
  destruct (connect_stop_rejected token w e Hrej) as (t & Hc & Hconn).
  unfold run, exec. rewrite Hconn. simpl.
  split; [done|]. split; [done|]. by exists t.
Qed.


(** A [disconnect] whose [stop()] resolves leaves the service without a
    connection: [getConnectionState()] is ['disconnected'], a second
    [disconnect] does nothing at all, the queue is untouched, and any
    message sent afterwards is queued. With no connection to begin with
    [disconnect] does nothing. *)
Theorem disconnect_leaves_offline :
  ∀ w,
    (∀ e, ¬ stop_rejects w e) →
    let w' := exec disconnect w in
    run disconnect w = Normal tt ∧
    connection (this w') = None ∧
    getConnectionState (this w') = "disconnected" ∧
    disconnect w' = (Normal tt, w') ∧
    messageQueue (this w') = messageQueue (this w) ∧
    (connection (this w) = None → w' = w) ∧
    (∀ r c, messageQueue (this (exec (sendMessage r c) w')) =
              messageQueue (this w) ++ [mkQueueEntry r c] ∧
            invocations (effects (exec (sendMessage r c) w')) = invocations (effects w')).
Proof.
  intros w Hno w'.
  assert (Hw' : run disconnect w = Normal tt ∧ connection (this w') = None ∧
                messageQueue (this w') = messageQueue (this w) ∧
                (connection (this w) = None → w' = w)).
  { subst w'. unfold run, exec. rewrite disconnect_unfold.
    destruct (connection (this w)) as [t|] eqn:Hc; [|done].
    destruct (hub_stop t) as [t' [e|]] eqn:Hs; [|done].
    destruct (Hno e). exists t. by rewrite Hs. }
  destruct Hw' as (Hrun & Hc' & Hq' & Hnone).
  split; [done|]. split; [done|].
  split; [by apply getConnectionState_no_connection|].
  split; [by rewrite disconnect_unfold, Hc'|]. split; [done|]. split; [done|].
  intros r c.
  assert (Hsend := sendMessage_offline r c w'). rewrite Hc' in Hsend.
  specialize (Hsend eq_refl). unfold exec at 1 2. rewrite Hsend.
  simpl. rewrite Hq'. split; [done|]. apply invocations_console.
Qed.

End Lifecycle.

Section LifecycleExamples.

Lemma connect_gives_up_when_stop_fails_witness :
  let w := transport_becomes (Some (mkScripted Connected [Some "busy"])) fresh in
  run (connect "t0") w = Throw "busy" ∧
  effects (exec (connect "t0") w) = [Stopped (Some "busy")].
Proof.
  intros w.
  destruct (connect_gives_up_when_stop_fails "t0" w "busy") as (Hrun & Hes & _).
  { by exists (mkScripted Connected [Some "busy"]). }
  split; [exact Hrun|exact Hes].
Defined.


(** With listener 11, which throws on ['connected'], before listener 3:
    the handshake succeeds, 3 is not told ['connected'], both are told
    ['error'], and [connect] throws the error of the listener. *)
Lemma connect_with_throwing_listener :
  let w := mkWorld (set_connectionStateCallbacks [11%nat; 3%nat]
                      (new_ChatService (T := Scripted))) [] [] in
  connect "t0" w =
    (Throw "not ready",
     mkWorld (set_connection (Some (mkScripted Connected []))
                (set_connectionStateCallbacks [11%nat; 3%nat] new_ChatService))
       [Started None; Console Log "SignalR connected";
        Called 11%nat (VString "connected");
        Console Err "SignalR connection error:";
        Called 11%nat (VString "error"); Called 3%nat (VString "error")] []).
Proof. reflexivity. Qed.

Lemma disconnect_leaves_offline_witness :
  let w := transport_becomes (Some (mkScripted Connected [])) fresh in
  getConnectionState (this (exec disconnect w)) = "disconnected".
Proof.
  intros w.
  destruct (disconnect_leaves_offline w) as (_ & _ & Hstate & _).
  { intros e (t & [= <-] & Hr). discriminate Hr. }
  exact Hstate.
Defined.

End LifecycleExamples.

(** ** The reconnect callback and the flush it starts *)

Section Reconnected.
Context {T : Type} `{HubConnection T} `{Listeners T}.

Implicit Types (w : World T) (q : list QueueEntry).

#[local] Abbreviation resend := (λ e : QueueEntry, sendMessage (receiverId e) (content e)).






Lemma resend_loop_cons e rest w :
  exec (forEach (e :: rest) resend) w =
  exec (forEach rest resend) (exec (sendMessage (receiverId e) (content e)) w).
Proof.
  unfold exec. rewrite forEach_cons.
  pose proof (sendMessage_normal (receiverId e) (content e) w) as Hnormal.
  unfold run in Hnormal.
  by destruct (sendMessage (receiverId e) (content e) w) as [[[]|?] ?].
Qed.







End Reconnected.

Section ReconnectedExamples.


(** The whole scenario through the reconnect handler: a send while the
    transport reconnects is queued; once the transport is connected its
    [onreconnected] callback starts the flush, and the request is on its
    way when the callback returns. *)
Lemma reconnect_flushes_queue :
  let w0 := transport_becomes (Some (mkScripted Reconnecting [])) fresh in
  let w1 := step (AOp (OpSendMessage 5 "hi")) w0 in
  let w2 := transport_becomes (Some (mkScripted Connected [])) w1 in
  let w3 := step (ALifecycle LcReconnected) w2 in
  let w4 := step (AResume 0) w3 in
  messageQueue (this w1) = [mkQueueEntry 5 "hi"] ∧
  invocations (effects w1) = [] ∧
  messageQueue (this w3) = [] ∧
  invocations (effects w3) = [(SendMessage 5 "hi", None)] ∧
  pending w3 = [FlushTask (mkQueueEntry 5 "hi") None []] ∧
  messageQueue (this w4) = [] ∧ pending w4 = [].
Proof. repeat split. Qed.

(** A message sent while a started flush waits overtakes the entries
    the flush has not reached: with [a] and [b] queued, a send of [c]
    after the reconnect callback goes out before [b]. *)
Lemma send_overtakes_started_flush :
  let q := [mkQueueEntry 1 "a"; mkQueueEntry 2 "b"] in
  let w := mkWorld (set_messageQueue q
                      (set_connection (Some (mkScripted Connected [])) new_ChatService))
             [] [] in
  invocations (effects (steps [ALifecycle LcReconnected; AOp (OpSendMessage 3 "c");
                               AResume 0; AResume 0] w)) =
    [(SendMessage 1 "a", None); (SendMessage 3 "c", None); (SendMessage 2 "b", None)] ∧
  invocations (effects (steps [ALifecycle LcReconnected; AResume 0; AResume 0;
                               AOp (OpSendMessage 3 "c")] w)) =
    [(SendMessage 1 "a", None); (SendMessage 2 "b", None); (SendMessage 3 "c", None)].
Proof. split; reflexivity. Qed.

(** A listener that throws on ['connected'] keeps the reconnect
    callback from flushing: the queue stays as it is. *)
Lemma throwing_listener_prevents_flush :
  let q := [mkQueueEntry 1 "a"] in
  let w := mkWorld (set_messageQueue q
                      (set_connectionStateCallbacks [11%nat]
                         (set_connection (Some (mkScripted Connected [])) new_ChatService)))
             [] [] in
  run onreconnected w = Throw "not ready" ∧
  messageQueue (this (exec onreconnected w)) = q ∧
  invocations (effects (exec onreconnected w)) = [] ∧
  pending (exec onreconnected w) = [].
Proof. repeat split. Qed.

End ReconnectedExamples.

(** ** Notifications and subscriptions *)

Section Notifications.
Context {T : Type} `{HubConnection T} `{Listeners T}.

Implicit Types (w : World T) (k : EventKind) (cb : Callback).

#[local] Abbreviation resend := (λ e : QueueEntry, sendMessage (receiverId e) (content e)).

Lemma resend_loop_calls q :
  ∀ w, calls (effects (exec (forEach q resend) w)) = calls (effects w).
Proof.
  induction q as [|e q IH]; intros w; [done|].
  rewrite resend_loop_cons, IH.
  destruct (sendMessage_accounting (receiverId e) (content e) w)
    as (news & ? & Hes & _ & _ & Hcalls & _).
  by rewrite Hes, calls_app, Hcalls, app_nil_r.
Qed.

Lemma flushMessageQueue_calls w :
  calls (effects (exec flushMessageQueue w)) = calls (effects w).
Proof.
  unfold exec. rewrite flushMessageQueue_unfold.
  destruct (messageQueue (this w)) as [|e q]; [done|].
  pose proof (resend_loop_calls (e :: q)) as Hloop. unfold exec in Hloop.
  rewrite Hloop. cbn [effects]. rewrite calls_app. apply app_nil_r.
Qed.

Lemma flushMessageQueue_listeners k w :
  listeners k (this (exec flushMessageQueue w)) = listeners k (this w).
Proof.
  unfold exec. rewrite flushMessageQueue_unfold.
  destruct (messageQueue (this w)) as [|e q]; [done|].
  match goal with |- context [forEach ?q0 _ ?w0] =>
    destruct (resend_loop q0 w0) as (w' & ? & ? & Hloop & _ & _ & Hl & _)
  end.
  rewrite Hloop. simpl. rewrite Hl. simpl. apply listeners_set_messageQueue.
Qed.

(** What a flush adds: no listener call, and entries delivered or
    queued again. *)
Lemma flushMessageQueue_added w :
  ∃ news,
    effects (exec flushMessageQueue w) = effects w ++ news ∧
    calls news = [] ∧
    messageQueue (this w) ≡ₚ delivered news ++ messageQueue (this (exec flushMessageQueue w)) ∧
    messageQueue (this (exec flushMessageQueue w)) `sublist_of` messageQueue (this w) ∧
    connectionStateCallbacks (this (exec flushMessageQueue w))
      = connectionStateCallbacks (this w).
Proof.
  pose proof (flushMessageQueue_calls w) as Hcalls.
  pose proof (flushMessageQueue_listeners ConnectionStateChanged w) as Hl. simpl in Hl.
  unfold exec in *. rewrite flushMessageQueue_unfold in *.
  destruct (messageQueue (this w)) as [|e q] eqn:Hq.
  - exists []. simpl. rewrite app_nil_r, Hq. by repeat split.
  - match type of Hcalls with context [forEach _ _ ?w0] =>
      destruct (resend_loop (e :: q) w0)
        as (w' & news & rq & Hloop & Hes & Hq' & _ & _ & Hperm & _ & Hr & _)
    end.
    rewrite Hloop in *. simpl in *. rewrite Hes, Hq' in *. rewrite <- app_assoc in *.
    eexists. split; [done|].
    rewrite !calls_app in Hcalls.
    assert (Hnews : calls news = []).
    { apply (app_inv_head (calls (effects w))). rewrite app_nil_r.
      etrans; [|exact Hcalls]. done. }
    rewrite delivered_app, calls_app, Hnews. by repeat split.
Qed.

(** A listener is told a state, or was: it is on the connection state
    list of [w], or a listener subscribes it to the connection state
    when called. *)
#[local] Abbreviation state_listener w c :=
  (c ∈ connectionStateCallbacks (this w) ∨
   ∃ c0 v0 (w0 : World T), CallOn ConnectionStateChanged c ∈ does (listener_code c0 v0 w0)).

(** What holds of the world [w'] while an operation or a lifecycle
    callback runs from [w]: the calls made so far went to connection
    state listeners with a state name, and the listeners now on the
    connection state list are such listeners. *)
#[local] Abbreviation notified_so_far w w' :=
  ((∃ news, effects w' = effects w ++ news ∧
            ∀ c v, (c, v) ∈ calls news →
                   state_listener w c ∧ ∃ state, v = VString state ∧ state ∈ notified_states) ∧
   (∀ c, c ∈ connectionStateCallbacks (this w') → state_listener w c)).

Lemma notified_so_far_effect w w' (e : Effect) :
  (∀ c v, e ≠ Called c v) →
  notified_so_far w w' →
  notified_so_far w (mkWorld (this w') (effects w' ++ [e]) (pending w')).
Proof.
  intros He [(news & Hes & Hcalls) Hl]. split; [|done].
  exists (news ++ [e]). simpl. rewrite Hes, <- app_assoc. split; [done|].
  intros c v. rewrite calls_app.
  assert (Hnone : calls [e] = []).
  { destruct e; try done. by destruct (He c0 arg). }
  rewrite Hnone, app_nil_r. apply Hcalls.
Qed.

Lemma notified_so_far_notify w state :
  state ∈ notified_states →
  invariant (λ w', notified_so_far w w') (notifyConnectionState state).
Proof.
  intros Hstate. unfold notifyConnectionState.
  apply invariant_bind_gets. intros w1 Hw1.
  apply invariant_forEach; [|done]. intros cb Hcb.
  assert (Hlistener : state_listener w cb) by by apply Hw1.
  apply invariant_call_listener.
  - apply invariant_emit. intros w2 [(news & Hes & Hcalls) Hl]. split; [|done].
    exists (news ++ [Called cb (VString state)]). simpl. rewrite Hes, <- app_assoc.
    split; [done|]. intros c v. rewrite calls_app, elem_of_app. intros [Hin|Hin].
    + by apply Hcalls.
    + simpl in Hin. apply list_elem_of_singleton in Hin as [= -> ->].
      split; [done|]. by exists state.
  - intros w2 call Hcall. destruct call as [k c'|k c']; simpl.
    + apply invariant_bind; [|intros ?; apply invariant_ret].
      apply invariant_subscribe. intros w3 [Hcalls Hl]. split; [done|].
      intros c. simpl. destruct k; simpl; try apply Hl.
      rewrite elem_of_app, list_elem_of_singleton. intros [Hin| ->]; [by apply Hl|].
      right. by exists cb, (VString state), w2.
    + apply invariant_unsubscribe. intros w3 [Hcalls Hl]. split; [done|].
      intros c. simpl. destruct k; simpl; try apply Hl.
      rewrite list_elem_of_filter. intros [_ Hin]. by apply Hl.
Qed.

(** The calls an operation of the API or a lifecycle callback makes
    carry one of the names connected, error, reconnecting and
    disconnected; the name connecting is never notified. They go to
    connection state listeners only: to listeners that are on the
    connection state list when the operation starts, or that a listener
    subscribes to the connection state when it is called. *)
Theorem notifications_are_state_names :
  ∀ (a : Action) w,
    (match a with AOp _ | ALifecycle _ => True | _ => False end) →
    ∃ news,
      effects (step a w) = effects w ++ news ∧
      ∀ c v, (c, v) ∈ calls news →
             (c ∈ connectionStateCallbacks (this w) ∨
              ∃ c0 v0 (w0 : World T),
                CallOn ConnectionStateChanged c ∈ does (listener_code c0 v0 w0)) ∧
             ∃ state, v = VString state ∧ state ∈ notified_states.
Proof.
  intros a w Ha.
  assert (Hstart : notified_so_far w w).
  { split; [|by left]. exists []. rewrite app_nil_r. split; [done|].
    by intros c v ?%elem_of_nil. }
  assert (Hinv : ∀ m : Js T unit,
            step a w = exec m w → invariant (λ w', notified_so_far w w') m →
            ∃ news,
              effects (step a w) = effects w ++ news ∧
              ∀ c v, (c, v) ∈ calls news →
                     state_listener w c ∧
                     ∃ state, v = VString state ∧ state ∈ notified_states).
  { intros m -> Hm. by destruct (Hm w Hstart) as [Hnews _]. }
  destruct a as [| | |op|l|]; try done.
  - apply (Hinv (run_op op)); [done|]. destruct op; simpl;
      invariant_split_by
        ltac:(first [ apply notified_so_far_notify; unfold notified_states; in_list ]);
      intros w' Hw'; first [done | by apply notified_so_far_effect ].
  - apply (Hinv (run_lifecycle l)); [done|]. destruct l; simpl;
      invariant_split_by
        ltac:(first [ apply notified_so_far_notify; unfold notified_states; in_list ]);
      intros w' Hw'; first [done | by apply notified_so_far_effect ].
Qed.

Lemma filter_absent cb (l : list Callback) :
  cb ∉ l → filter (λ c, c ≠ cb) l = l.
Proof.
  induction l as [|c l IH]; [done|]. rewrite not_elem_of_cons. intros [Hne Hout].
  rewrite filter_cons_True by done. by rewrite IH.
Qed.

(** Subscribing a listener and calling the handle at once leaves the
    list as it was when the listener was not on it before; if it was,
    the handle removes those earlier registrations too. The handle
    only ever removes that one listener and only from its own kind,
    the listeners that stay keep their order, and calling it again
    changes nothing. *)
Theorem subscribe_then_unsubscribe :
  ∀ k cb w,
    let w1 := exec (unsubscribe k cb) (exec (subscribe k cb) w) in
    listeners k (this w1) = filter (λ c, c ≠ cb) (listeners k (this w)) ∧
    (cb ∉ listeners k (this w) → listeners k (this w1) = listeners k (this w)) ∧
    (∀ k', k' ≠ k → listeners k' (this w1) = listeners k' (this w)) ∧
    listeners k (this (exec (unsubscribe k cb) w)) `sublist_of` listeners k (this w) ∧
    (∀ c, c ≠ cb →
          (c ∈ listeners k (this (exec (unsubscribe k cb) w)) ↔ c ∈ listeners k (this w))) ∧
    exec (unsubscribe k cb) (exec (unsubscribe k cb) w) = exec (unsubscribe k cb) w.
Proof.
  intros k cb w w1. subst w1. unfold exec.
  rewrite !unsubscribe_unfold, subscribe_unfold. simpl.
  rewrite !listeners_set_listeners, !decide_True by done.
  assert (Hround : filter (λ c, c ≠ cb) (listeners k (this w) ++ [cb])
                   = filter (λ c, c ≠ cb) (listeners k (this w))).
  { rewrite filter_app, filter_cons_False by (by intros ?). simpl. apply app_nil_r. }
  split; [done|]. split.
  { intros Hout. rewrite Hround. by apply filter_absent. }
  split.
  { intros k' Hk. rewrite !listeners_set_listeners, !decide_False by done. done. }
  split; [apply sublist_filter|]. split.
  { intros c Hc. rewrite list_elem_of_filter. split; [by intros [_ ?]|done]. }
  rewrite list_filter_filter.
  assert (Hsame : filter (λ c, c ≠ cb ∧ c ≠ cb) (listeners k (this w))
                  = filter (λ c, c ≠ cb) (listeners k (this w))).
  { apply list_filter_iff. intros c. split; [by intros [? _]|done]. }
  rewrite Hsame. f_equal. by destruct k.
Qed.

End Notifications.

Section NotificationsExamples.

Lemma notifications_are_state_names_witness :
  let w := mkWorld (set_connectionStateCallbacks [3%nat] (new_ChatService (T := Scripted)))
             [] [] in
  ∃ news,
    effects (step (ALifecycle LcReconnecting) w) = effects w ++ news ∧
    ∀ c v, (c, v) ∈ calls news →
           (c ∈ connectionStateCallbacks (this w) ∨
            ∃ c0 v0 (w0 : World Scripted),
              CallOn ConnectionStateChanged c ∈ does (listener_code c0 v0 w0)) ∧
           ∃ state, v = VString state ∧ state ∈ notified_states.
Proof.
  intros w. exact (notifications_are_state_names (ALifecycle LcReconnecting) w I).
Defined.

(** A listener that is told a state need not have been on the list when
    the operation started: 14 subscribes 15 when it is told
    ['connected'] and throws, and [connect] then tells both
    ['error']. *)
Lemma listener_subscribed_during_connect :
  let w := mkWorld (set_connectionStateCallbacks [14%nat] (new_ChatService (T := Scripted)))
             [] [] in
  calls (effects (step (AOp (OpConnect "t0")) w)) =
    [(14%nat, VString "connected"); (14%nat, VString "error"); (15%nat, VString "error")] ∧
  15%nat ∉ connectionStateCallbacks (this w).
Proof. split; [reflexivity|]. simpl. intros Hin. not_in_list. Qed.

Lemma subscribe_then_unsubscribe_witness :
  let w := mkWorld (set_messageCallbacks [1%nat; 2%nat] (new_ChatService (T := Scripted)))
             [] [] in
  listeners MessageReceived
    (this (exec (unsubscribe MessageReceived 5%nat) (exec (subscribe MessageReceived 5%nat) w)))
  = [1%nat; 2%nat].
Proof.
  intros w.
  apply (proj1 (proj2 (subscribe_then_unsubscribe MessageReceived 5%nat w))).
  intros Hin. simpl in Hin. not_in_list.
Defined.

End NotificationsExamples.

(** ** The chat page *)

Section ChatPage.
Import Chat.

Lemma existsb_id_elem (prev : list User) (user : User) :
  existsb (λ u, id u =? id user) prev = true ↔ id user ∈ id <$> prev.
Proof.
  induction prev as [|u prev IH]; simpl.
  - split; [done|]. by intros ?%elem_of_nil.
  - rewrite orb_true_iff, IH, elem_of_cons, Z.eqb_eq. split; intros [?|?]; auto.
Qed.

(** The user directory stays free of duplicates and of the session's
    own user: [handleUserRegistered] only ever appends, at most the
    announced user; it appends nothing when the announcement is [null],
    carries the session's own id, or carries an id already listed; so
    ids that were distinct stay distinct, and the other slots of the
    page are not touched. *)
Theorem handleUserRegistered_directory :
  ∀ (currentUser : CurrentUser) (user : option User) (st : State),
    let st' := handleUserRegistered currentUser user st in
    (users st' = users st ∨
     ∃ u, user = Some u ∧ users st' = users st ++ [u] ∧
          strict_equals (Num (id u)) (userId currentUser) = false ∧
          id u ∉ id <$> users st) ∧
    (NoDup (id <$> users st) → NoDup (id <$> users st')) ∧
    (∀ u, user = Some u → id u ∈ id <$> users st → st' = st) ∧
    selectedUser st' = selectedUser st ∧
    connectionStatus st' = connectionStatus st.
Proof.
  intros cu user st st'. subst st'. unfold handleUserRegistered.
  destruct user as [u|]; [|by repeat split; try left].
  destruct (strict_equals (Num (id u)) (userId cu)) eqn:Hself.
  { repeat split; try done; by left. }
  unfold setUsers; simpl.
  destruct (existsb (λ u0, id u0 =? id u) (users st)) eqn:Hknown.
  - split; [by left|]. split; [done|]. split; [|done].
    intros u' [= <-] _. by destruct st.
  - assert (Hnew : id u ∉ id <$> users st).
    { intros Hin%existsb_id_elem. congruence. }
    split; [right; by exists u|]. split.
    + intros Hnd. rewrite fmap_app. simpl. apply NoDup_app. split; [done|].
      split; [|apply NoDup_singleton].
      intros x Hx ->%list_elem_of_singleton. done.
    + split; [|done]. intros u' [= <-] Hin. done.
Qed.

Lemma handleUserRegistered_directory_witness :
  let me := mkCurrentUser (Num 7) (Some "ann") (Some "t0") in
  let st := mkState [mkUser 3 "bob"] None "connected" in
  NoDup (id <$> users (handleUserRegistered me (Some (mkUser 9 "cat")) st)).
Proof.
  intros me st.
  apply (proj1 (proj2 (handleUserRegistered_directory me (Some (mkUser 9 "cat")) st))).
  simpl. apply NoDup_singleton.
Defined.

(** The message view only ever gains messages of the open conversation:
    both live handlers leave the earlier messages in place and append
    at most the new one, and only when it was sent by or to the selected
    user, so a view of that user's conversation stays one. With no user
    selected nothing is appended. Whatever the sent-confirmation handler
    appends, the receive handler would append too. A history batch
    replaces the view whatever it held. *)
Theorem message_handlers_keep_conversation :
  ∀ (activeUser : option User) (message : Message) (prev : list Message),
    (handleMessageReceived activeUser message prev = prev ∨
     handleMessageReceived activeUser message prev = prev ++ [message] ∧
     ∃ u, activeUser = Some u ∧ involves u message) ∧
    (handleMessageSent activeUser message prev = prev ∨
     handleMessageSent activeUser message prev = prev ++ [message] ∧
     handleMessageReceived activeUser message prev = prev ++ [message] ∧
     ∃ u, activeUser = Some u ∧ receiverId message = id u) ∧
    (∀ u, activeUser = Some u → Forall (involves u) prev →
          Forall (involves u) (handleMessageReceived activeUser message prev) ∧
          Forall (involves u) (handleMessageSent activeUser message prev)) ∧
    (activeUser = None →
       handleMessageReceived activeUser message prev = prev ∧
       handleMessageSent activeUser message prev = prev) ∧
    (∀ history, handleConversationHistory history prev = history).
Proof.
  intros activeUser message prev.
  unfold handleMessageReceived, handleMessageSent, involves.
  destruct activeUser as [u|]; [|by repeat split; try left; try done].
  destruct (Z.eqb_spec (senderId message) (id u)) as [Hs|Hs];
    destruct (Z.eqb_spec (receiverId message) (id u)) as [Hr|Hr]; simpl.
  - split; [right; split; [done|]; exists u; auto|].
    split; [right; repeat split; try done; by exists u|].
    split; [|done]. intros u' [= <-] Hall.
    split; apply Forall_app; split; try done; apply Forall_singleton; auto.
  - split; [right; split; [done|]; exists u; auto|]. split; [by left|].
    split; [|done]. intros u' [= <-] Hall.
    split; [|done]. apply Forall_app; split; [done|]. apply Forall_singleton; auto.
  - split; [right; split; [done|]; exists u; auto|].
    split; [right; repeat split; try done; by exists u|].
    split; [|done]. intros u' [= <-] Hall.
    split; apply Forall_app; split; try done; apply Forall_singleton; auto.
  - split; [by left|]. split; [by left|]. split; [|done]. by intros u' [= <-] Hall.
Qed.

Lemma message_handlers_keep_conversation_witness :
  let bob := mkUser 3 "bob" in
  let m1 := mkMessage 1 3 7 "hello" "t1" in
  let m2 := mkMessage 2 9 7 "other" "t2" in
  Forall (involves bob)
    (handleMessageReceived (Some bob) m2 (handleMessageReceived (Some bob) m1 [])).
Proof.
  intros bob m1 m2.
  apply (proj1 (proj2 (proj2 (message_handlers_keep_conversation (Some bob) m2
           (handleMessageReceived (Some bob) m1 []))))) with (u := bob); [done|].
  apply Forall_singleton. by left.
Defined.

End ChatPage.

(** ** The chat page and the services *)

Section ChatPageServices.
Import ChatSession.
Context {T : Type} `{HubConnection T} `{Listeners T}.

Implicit Types (w : World T).

(** The remote calls made from [w] on are [SendMessage] calls. *)
#[local] Abbreviation only_sends i w' :=
  (∃ sends, invocations (effects w') = i ++ sends ∧
            Forall (λ io : Invocation * option Error, ∃ r c, io.1 = SendMessage r c) sends).

Lemma only_sends_effect i w' (e : Effect) :
  (∀ otherUserId r, e ≠ Invoked (GetConversation otherUserId) r) →
  only_sends i w' →
  only_sends i (mkWorld (this w') (effects w' ++ [e]) (pending w')).
Proof.
  intros He (sends & Hi & Hall). simpl. rewrite invocations_app, Hi, <- app_assoc.
  eexists. split; [done|]. apply Forall_app. split; [done|].
  destruct e as [| |[r c|otherUserId] res| |]; simpl; try apply Forall_nil_2.
  - apply Forall_singleton. by exists r, c.
  - by destruct (He otherUserId res).
Qed.

Ltac only_sends_leaves :=
  intros ? ?; first [done | by apply only_sends_effect].

(** The reconnect callback, and whatever goes on once a request has
    settled, makes [SendMessage] calls only. *)
Lemma onreconnected_only_sends i :
  invariant (λ w', only_sends i w') onreconnected.
Proof. invariant_split; only_sends_leaves. Qed.

Lemma resume_at_only_sends i n :
  invariant (λ w', only_sends i w') (resume_at n).
Proof. invariant_split; only_sends_leaves. Qed.

Lemma resumptions_only_sends i (ns : list nat) :
  ∀ w, only_sends i w → only_sends i (steps (map AResume ns) w).
Proof.
  induction ns as [|n ns IH]; intros w Hw; [done|].
  simpl. apply IH. by apply resume_at_only_sends.
Qed.

(** Selecting a user clears the message view at once. If the service is
    not connected at that moment, the history request is dropped for
    good: nothing is queued, and when the transport reconnects later the
    reconnect callback makes [SendMessage] calls only, and so does the
    flush it starts at every settlement, so the history of the selected
    conversation is never requested. *)
Theorem loadConversation_offline_is_dropped :
  ∀ (userId : Z) (messages : list Chat.Message) w (c' : option T),
    is_connected (connection (this w)) = false →
    let '(view, request) := loadConversation userId messages in
    let w1 := exec request w in
    let w2 := exec onreconnected (transport_becomes c' w1) in
    view = [] ∧
    run request w = Normal tt ∧
    this w1 = this w ∧
    invocations (effects w1) = invocations (effects w) ∧
    (∃ sends, invocations (effects w2) = invocations (effects w) ++ sends ∧
              Forall (λ io, ∃ r c, io.1 = SendMessage r c) sends) ∧
    (∀ ns : list nat,
       ∃ sends, invocations (effects (steps (map AResume ns) w2)) =
                  invocations (effects w) ++ sends ∧
                Forall (λ io, ∃ r c, io.1 = SendMessage r c) sends).
Proof.
  intros userId messages w c' Hoff. simpl.
  assert (Hget : getConversation userId w =
            (Normal tt, mkWorld (this w)
               (effects w ++ [Console Warn "Cannot get conversation: not connected"])
               (pending w))).
  { rewrite getConversation_unfold. unfold is_connected in Hoff.
    destruct (connection (this w)) as [t|]; [|done]. by rewrite Hoff. }
  unfold run, exec at 1 2 4 6. rewrite Hget. simpl.
  split; [done|]. split; [done|]. split; [done|].
  split; [apply invocations_console|].
  match goal with |- context [exec onreconnected ?w0] =>
    assert (Hw2 : only_sends (invocations (effects w)) (exec onreconnected w0))
  end.
  { apply onreconnected_only_sends. exists []. simpl.
    rewrite invocations_console, app_nil_r. split; [done|]. apply Forall_nil_2. }
  split; [done|]. intros ns. by apply resumptions_only_sends.
Qed.

Lemma disconnect_started_unfold w :
  disconnect_started w =
    match connection (this w) with
    | None => (Normal tt, w)
    | Some t =>
        (Normal tt,
         mkWorld (set_connection (Some (fst (hub_stop t))) (this w))
                 (effects w ++ [Stopped (snd (hub_stop t))])
                 (pending w ++ [DisconnectTask (snd (hub_stop t))]))
    end.
Proof.
  open_world w. js_unfold. simpl. destruct conn as [t|]; simpl; [|done].
  by destruct (hub_stop t) as [t' r].
Qed.

(** Logging out from the chat page always ends logged out, whatever the
    transport does, even when [stop()] rejects: afterwards
    [isAuthenticated()] is false, no session can be read back, the
    location is [/login] and the chat page cannot be shown. The service
    keeps its listeners and its offline queue, and makes no remote
    call. [disconnect()] is not awaited: when a connection is held,
    [stop()] has been called on it and the rest of [disconnect] is
    pending; the service holds no connection once [stop()] has
    resolved. *)
Theorem handleLogout_logs_out :
  ∀ w (b : Storage.Browser),
    let '(w', b') := handleLogout w b in
    authService.isAuthenticated b' = false ∧
    Storage.location_href b' = "/login" ∧
    Chat.getCurrentUser b' = Chat.mkCurrentUser Chat.NaN None None ∧
    (∀ fuel route, Routes.shown fuel route b' ≠ Some Routes.ChatPage) ∧
    messageQueue (this w') = messageQueue (this w) ∧
    (∀ k, listeners k (this w') = listeners k (this w)) ∧
    invocations (effects w') = invocations (effects w) ∧
    ((∀ e, ¬ stop_rejects w e) →
       connection (this (step (AResume (length (pending w))) w')) = None) ∧
    (∀ t, connection (this w) = Some t →
          connection (this w') = Some (fst (hub_stop t)) ∧
          effects w' = effects w ++ [Stopped (snd (hub_stop t))] ∧
          pending w' = pending w ++ [DisconnectTask (snd (hub_stop t))]) ∧
    (connection (this w) = None → w' = w).
Proof.
  intros w b. unfold handleLogout.
  set (b' := Storage.navigate "/login" (authService.logout b)).
  assert (Ha : authService.isAuthenticated b' = false).
  { unfold authService.isAuthenticated. subst b'. rewrite getItem_navigate_id.
    by rewrite logout_getItem by in_list. }
  split; [done|]. split; [done|]. split.
  { unfold Chat.getCurrentUser. subst b'. rewrite !getItem_navigate_id.
    by rewrite !logout_getItem by in_list. }
  split.
  { intros fuel route Hshown. destruct fuel as [|fuel].
    - rewrite shown_unfold, App_cases, Ha in Hshown. by destruct route.
    - rewrite (shown_unauthenticated fuel route b' Ha) in Hshown. by destruct route. }
  rewrite disconnect_started_unfold.
  destruct (connection (this w)) as [t|] eqn:Hc; cbn [snd this effects pending].
  - split; [done|]. split; [intros k; apply listeners_set_connection|].
    split; [by rewrite invocations_app, app_nil_r|]. split.
    + intros Hno. simpl. unfold exec, resume_at. cbn [pending this effects].
      rewrite lookup_app_r, Nat.sub_diag by done. cbn [lookup list_lookup].
      destruct (snd (hub_stop t)) as [e|] eqn:Hs; [|done].
      destruct (Hno e). by exists t.
    + split; [|done]. by intros t0 [= <-].
  - split; [done|]. split; [done|]. split; [done|]. split.
    + intros _. simpl. unfold exec, resume_at.
      rewrite lookup_ge_None_2 by done. done.
    + split; [done|]. done.
Qed.

End ChatPageServices.

Section ChatPageServicesExamples.
Import ChatSession.

(** Logging out while connected: [stop()] has been called, the rest of
    [disconnect] is pending, and when it goes on the connection is
    dropped. *)
Lemma handleLogout_logs_out_witness :
  let w := transport_becomes (Some (mkScripted Connected [])) fresh in
  let w' := (handleLogout w (Storage.mkBrowser {[ "token" := "t0" ]} "/chat")).1 in
  pending w' = [DisconnectTask None] ∧
  connection (this (step (AResume 0) w')) = None.
Proof.
  intros w w'.
  pose proof (handleLogout_logs_out w (Storage.mkBrowser {[ "token" := "t0" ]} "/chat"))
    as Hout.
  simpl in Hout. destruct Hout as (_ & _ & _ & _ & _ & _ & _ & Hresumed & Hpending & _).
  split.
  - by destruct (Hpending (mkScripted Connected []) eq_refl) as (_ & _ & Hp).
  - apply Hresumed. intros e (t & [= <-] & Hr). discriminate Hr.
Defined.

Lemma loadConversation_offline_is_dropped_witness :
  let w := exec (sendMessage 5 "hi") fresh in
  let w1 := exec (loadConversation 3 []).2 w in
  let w2 := exec onreconnected (transport_becomes (Some (mkScripted Connected [])) w1) in
  ∃ sends, invocations (effects (steps (map AResume [0%nat]) w2)) =
             invocations (effects w) ++ sends ∧
           Forall (λ io, ∃ r c, io.1 = SendMessage r c) sends.
Proof.
  intros w w1 w2.
  pose proof (loadConversation_offline_is_dropped 3 [] w
                (Some (mkScripted Connected [])) eq_refl) as Hdrop.
  simpl in Hdrop. destruct Hdrop as (_ & _ & _ & _ & _ & Hresumed).
  destruct (Hresumed [0%nat]) as (sends & Hinv & Hsends).
  exists sends. split; [exact Hinv|exact Hsends].
Defined.

End ChatPageServicesExamples.

(** ** The composer, further *)

Section ComposerFurther.
Import MessageInput.

Lemma whitespace_only_app (s1 s2 : JsString) :
  whitespace_only (s1 ++ s2) = whitespace_only s1 && whitespace_only s2.
Proof. apply forallb_app. Qed.

Lemma whitespace_only_reverse (s : JsString) :
  whitespace_only (reverse s) = whitespace_only s.
Proof.
  induction s as [|c s IH]; [done|].
  rewrite reverse_cons, whitespace_only_app, IH. simpl.
  rewrite andb_true_r. apply andb_comm.
Qed.

Lemma trimStart_split (s : JsString) :
  ∃ pre, s = pre ++ trimStart s ∧ whitespace_only pre = true.
Proof.
  induction s as [|c s (pre & Hs & Hpre)]; simpl; [by exists []|].
  destruct (isWhiteSpace c) eqn:Hc.
  - exists (c :: pre). simpl. rewrite Hc, Hpre. split; [by f_equal|done].
  - by exists [].
Qed.

Lemma trimEnd_split (s : JsString) :
  ∃ post, s = trimEnd s ++ post ∧ whitespace_only post = true.
Proof.
  destruct (trimStart_split (reverse s)) as (pre & Hs & Hpre).
  exists (reverse pre). rewrite whitespace_only_reverse. split; [|done].
  unfold trimEnd. rewrite <- reverse_app, <- Hs. by rewrite reverse_involutive.
Qed.

Lemma trimStart_idemp (s : JsString) : trimStart (trimStart s) = trimStart s.
Proof.
  destruct (trimStart_head s) as [->|(c & r & -> & Hc)]; [done|]. simpl. by rewrite Hc.
Qed.

Lemma trim_idemp (s : JsString) : trim (trim s) = trim s.
Proof.
  assert (Hstart : trimStart (trim s) = trim s).
  { rewrite trim_unfold. destruct (trimStart_head s) as [->|(c & r & -> & Hc)]; [done|].
    simpl. by rewrite Hc. }
  unfold trim at 1. rewrite Hstart. unfold trim, trimEnd.
  by rewrite reverse_involutive, trimStart_idemp.
Qed.

(** What the composer sends is what was typed, less the white space
    around it: the text in the composer is the text sent between two
    runs of white space, and the text sent has no white space left at
    either end, so inner white space is kept. *)
Theorem handleSend_sends_typed_text :
  ∀ (message : JsString) (disabled : bool) (v : JsString),
    v ∈ fst (handleSend message disabled) →
    (∃ pre post, message = pre ++ v ++ post ∧
                 whitespace_only pre = true ∧ whitespace_only post = true) ∧
    trim v = v ∧
    trimStart v = v ∧ trimEnd v = v.
Proof.
  intros message disabled v. unfold handleSend.
  destruct (truthy (trim message) && negb disabled); simpl; [|by intros ?%elem_of_nil].
  intros ->%list_elem_of_singleton.
  destruct (trimStart_split message) as (pre & Hm & Hpre).
  destruct (trimEnd_split (trimStart message)) as (post & Ht & Hpost).
  split.
  { exists pre, post. split; [|done]. unfold trim. by rewrite <- Ht. }
  split; [apply trim_idemp|]. split.
  - rewrite trim_unfold. destruct (trimStart_head message) as [->|(c & r & -> & Hc)]; [done|].
    simpl. by rewrite Hc.
  - unfold trim, trimEnd. by rewrite reverse_involutive, trimStart_idemp.
Qed.

Lemma handleSend_sends_typed_text_witness :
  trim [104; 32; 105]%N = [104; 32; 105]%N.
Proof.
  apply (handleSend_sends_typed_text [9; 104; 32; 105; 32]%N false [104; 32; 105]%N).
  apply elem_of_cons. by left.
Defined.

(** The Send button is enabled exactly when a click on it sends: it is
    disabled when the composer is disabled or holds only white space,
    and then [handleSend] sends nothing and keeps the text. A key press
    sends exactly when the key is Enter, Shift is up and the button is
    enabled; any other key press sends nothing and keeps the text. *)
Theorem buttonDisabled_matches_handleSend :
  ∀ (message : JsString) (disabled : bool) (key : string) (shiftKey : bool),
    (buttonDisabled message disabled = false ↔
       handleSend message disabled = ([trim message], [])) ∧
    (buttonDisabled message disabled = true ↔
       handleSend message disabled = ([], message)) ∧
    (buttonDisabled message disabled = true ↔
       disabled = true ∨ whitespace_only message = true) ∧
    (fst (snd (handleKeyPress key shiftKey message disabled)) ≠ [] ↔
       key = "Enter" ∧ shiftKey = false ∧ buttonDisabled message disabled = false) ∧
    (key ≠ "Enter" ∨ shiftKey = true →
       handleKeyPress key shiftKey message disabled = (false, ([], message))).
Proof.
  intros message disabled key shiftKey.
  unfold buttonDisabled, handleKeyPress, handleSend.
  pose proof (trim_nil message) as Hnil.
  destruct (trim message) as [|c t] eqn:Ht; simpl.
  - assert (Hws : whitespace_only message = true) by by apply Hnil.
    rewrite orb_true_r.
    split; [split; [done|]; intros [= ?]; by subst|].
    split; [done|]. split; [split; auto|]. split.
    + split; [|by intros (_ & _ & ?)].
      by destruct (String.eqb key "Enter" && negb shiftKey).
    + intros [Hk|Hs]; [by apply String.eqb_neq in Hk as ->|].
      by rewrite Hs, andb_false_r.
  - assert (Hws : whitespace_only message ≠ true).
    { intros Hw. by apply Hnil in Hw. }
    rewrite orb_false_r. destruct disabled; simpl.
    + split; [done|]. split; [done|]. split; [split; auto|]. split.
      * split; [|by intros (_ & _ & ?)].
        by destruct (String.eqb key "Enter" && negb shiftKey).
      * intros [Hk|Hs]; [by apply String.eqb_neq in Hk as ->|].
        by rewrite Hs, andb_false_r.
    + split; [done|]. split; [split; [done|]; intros [= ? ?]; by subst|].
      split; [split; [done|]; by intros [?|?]|]. split.
      * destruct (String.eqb_spec key "Enter") as [->|Hk]; destruct shiftKey; simpl;
          split; try done; by intros (? & ? & ?).
      * intros [Hk|Hs]; [by apply String.eqb_neq in Hk as ->|].
        by rewrite Hs, andb_false_r.
Qed.

Lemma buttonDisabled_matches_handleSend_witness :
  handleKeyPress "Enter" true [104; 105]%N false = (false, ([], [104; 105]%N)).
Proof.
  apply (proj2 (proj2 (proj2 (proj2
           (buttonDisabled_matches_handleSend [104; 105]%N false "Enter" true))))).
  by right.
Defined.

End ComposerFurther.

(** ** The queue when nothing gets through *)

Section NothingDelivered.
Context {T : Type} `{HubConnection T}.

Implicit Types (w : World T).

#[local] Abbreviation resend := (λ e : QueueEntry, sendMessage (receiverId e) (content e)).

Lemma sublist_same_length {A} (l1 l2 : list A) :
  l1 `sublist_of` l2 → (length l2 ≤ length l1)%nat → l1 = l2.
Proof.
  induction 1 as [|x l1 l2 _ IH|x l1 l2 Hsub _]; simpl; intros Hlen.
  - done.
  - f_equal. apply IH. lia.
  - apply sublist_length in Hsub. lia.
Qed.

(** A flush that delivers nothing leaves the queue exactly as it was,
    in the same order, whether every resend was rejected or the service
    was not connected. In the latter case the flush makes no remote
    call at all and leaves the connection alone. *)
Theorem flushMessageQueue_without_delivery :
  ∀ w,
    (delivered (drop (length (effects w)) (effects (exec flushMessageQueue w))) = [] →
       messageQueue (this (exec flushMessageQueue w)) = messageQueue (this w)) ∧
    (is_connected (connection (this w)) = false →
       messageQueue (this (exec flushMessageQueue w)) = messageQueue (this w) ∧
       invocations (effects (exec flushMessageQueue w)) = invocations (effects w) ∧
       connection (this (exec flushMessageQueue w)) = connection (this w)).
Proof.
  intros w. split.
  - destruct (flushMessageQueue_added w) as (news & Hes & _ & Hperm & Hsub & _).
    rewrite Hes, drop_app_length. intros Hnone. rewrite Hnone in Hperm. simpl in Hperm.
    apply sublist_same_length; [done|]. by rewrite Hperm.
  - intros Hoff. unfold exec. rewrite flushMessageQueue_unfold.
    destruct (messageQueue (this w)) as [|e q] eqn:Hq; [simpl; by rewrite Hq|].
    match goal with |- context [forEach _ _ ?w0] =>
      destruct (resend_loop_offline (e :: q) w0 Hoff) as (Hq' & Hi & Hc & _)
    end.
    unfold exec in *. rewrite Hq', Hi, Hc. cbn [this effects].
    rewrite invocations_console. repeat split; by destruct (this w).
Qed.

End NothingDelivered.

Section NothingDeliveredExamples.

Lemma flushMessageQueue_without_delivery_witness :
  let q := [mkQueueEntry 1 "a"; mkQueueEntry 2 "b"] in
  let t := mkScripted Connected [Some "socket closed"; Some "socket closed"] in
  let w := mkWorld (set_messageQueue q (set_connection (Some t) new_ChatService)) [] [] in
  messageQueue (this (exec flushMessageQueue w)) = q.
Proof.
  intros q t w. apply (proj1 (flushMessageQueue_without_delivery w)). reflexivity.
Defined.

End NothingDeliveredExamples.

(** ** The reconnect policy, further *)

Section BackoffFurther.

(** The reconnect delay never decreases from one retry to the next. *)
Theorem nextRetryDelay_monotone :
  ∀ m n,
    0 ≤ m ≤ n →
    nextRetryDelayInMilliseconds (mkRetryContext m)
      ≤ nextRetryDelayInMilliseconds (mkRetryContext n).
Proof.
  intros m n Hmn. unfold nextRetryDelayInMilliseconds. simpl.
  destruct (Z.eqb_spec m 0), (Z.eqb_spec m 1), (Z.eqb_spec m 2),
    (Z.eqb_spec n 0), (Z.eqb_spec n 1), (Z.eqb_spec n 2); lia.
Qed.

Lemma nextRetryDelay_monotone_witness :
  nextRetryDelayInMilliseconds (mkRetryContext 1)
    ≤ nextRetryDelayInMilliseconds (mkRetryContext 5).
Proof. apply nextRetryDelay_monotone. lia. Defined.

End BackoffFurther.
